(** * Leaflet.AlmostOver on Leaflet 2: geometry search and proximity handler

    A shallow embedding of the bundled plugin: the geometry helpers
    [isFlat], [distanceSegment], [closestOnSegment], [closestOnCircle],
    [closest], [closestLayer], [closestLayerSnap], and the class
    [AlmostOverHandler].

    JavaScript numbers are IEEE 754 binary64 values, here Rocq's primitive
    floats.  A JavaScript exception is an explicit [Throw]; a value that may
    be [null] or [undefined] is an [option].  The host, Leaflet, is an
    argument of the bundle's factory and a record here; what it does not
    export raises TypeError when it is called. *)

From Stdlib Require Import Floats ZArith Bool List Arith Lia.
Import ListNotations.

Set Implicit Arguments.
Set Warnings "-register-all".

(** ** Exceptions *)

Inductive exn : Set :=
| TypeError
    (* a property read on [null] or [undefined], or a call of something that
       is not a function *)
| DegenerateInputError
    (* [Error('Invalid LatLng object')] of Leaflet's [LatLng] constructor; the
       specification calls this failure DegenerateInputError *)
| RangeError.
    (* the call stack is exhausted *)

Inductive completion (A : Type) : Type :=
| Return (a : A)
| Throw (e : exn).

Arguments Return {A} a.
Arguments Throw {A} e.

Definition bind {A B : Type} (c : completion A) (k : A -> completion B)
    : completion B :=
  match c with
  | Return a => k a
  | Throw e => Throw e
  end.

Declare Scope js_scope.
Delimit Scope js_scope with js.
Notation "x <- c ;; k" := (bind c (fun x => k))
  (at level 61, c at next level, right associativity) : js_scope.
Notation "c ;;; k" := (bind c (fun _ => k))
  (at level 61, right associativity) : js_scope.
Open Scope js_scope.

Fixpoint mapM {A B : Type} (f : A -> completion B) (l : list A)
    : completion (list B) :=
  match l with
  | [] => Return []
  | x :: rest => y <- f x ;; ys <- mapM f rest ;; Return (y :: ys)
  end.

(** ** Values of the host platform *)

Record LatLng : Set := mkLatLng { lat : float; lng : float }.

Record Point : Set := mkPoint { px : float; py : float }.

(** Coordinates as JavaScript holds them: an array element is a point (a
    [LatLng] instance, a [{lat, lng}] object or a [[lat, lng]] pair, of
    numbers), a plain object [{lat, lng}] as [JSON.parse] builds it, whose
    fields are numbers or [null], a nested array, or nothing ([undefined] or
    [null]). *)
Inductive jsval : Set :=
| Undefined
| Coord (p : LatLng)
| Plain (lat lng : option float)
| Array (l : list jsval).

(** [circle.getRadius()] is a number or an object with a [radius] field. *)
Inductive Radius : Set :=
| RadiusNumber (r : float)
| RadiusObject (r : float).

(** Layers.  [stamp] is [leaflet.Util.stamp]: the identity of the object. *)
Inductive Layer : Set :=
| Polyline (id : nat) (latlngs : list jsval)
| Polygon (id : nat) (latlngs : list jsval)
| Circle (id : nat) (center : LatLng) (radius : Radius)
| Marker (id : nat) (latlng : LatLng)
| LayerGroup (id : nat) (layers : list Layer)
| GridLayer (id : nat).

Definition stamp (l : Layer) : nat :=
  match l with
  | Polyline id _ | Polygon id _ | Circle id _ _ | Marker id _
  | LayerGroup id _ | GridLayer id => id
  end.

(** What [closest] accepts as its [layer] argument: a layer object or a raw
    array of coordinates. *)
Inductive shape : Set :=
| SLayer (l : Layer)
| SValue (v : jsval).

(** The [map] argument: the projection interface of an [L.Map]. *)
Record LMap : Set := mkLMap {
  latLngToLayerPoint : LatLng -> Point;
  project : LatLng -> float -> Point;
  unproject : Point -> float -> LatLng;
  getMaxZoom : float;
  getZoom : float;
  almostDistance : float          (* map.options.almostDistance *)
}.

(** The [leaflet] argument of the bundle's factory, as far as the geometry
    helpers call into it: [leaflet.LineUtil], and whether the host exports
    [leaflet.Util.isArray].  Leaflet 1 exports it, as [Array.isArray];
    Leaflet 2, the host the bundle is written for ([new leaflet.LatLng] on
    an object, [class ... extends leaflet.Handler]), exports none. *)
Record Leaflet : Set := mkLeaflet {
  pointToSegmentDistance : Point -> Point -> Point -> float;
  closestPointOnSegment : Point -> Point -> Point -> Point;
  Util_isArray : bool
}.

(** Modelled from the spec: Leaflet's [LatLng] constructor, which belongs to
    the host platform and not to this repository.  It rejects a coordinate
    that is NaN; this is the failure of the circle computation on a
    zero-length vector. *)
Definition new_LatLng (lat lng : float) : completion LatLng :=
  if is_nan lat || is_nan lng then Throw DegenerateInputError
  else Return (mkLatLng lat lng).

(** A field of a plain object as the [LatLng] constructor reads it: [null]
    is read as 0. *)
Definition numberOf (x : option float) : float :=
  match x with
  | Some n => n
  | None => 0%float
  end.

(** [new leaflet.LatLng(v)] on an array element. *)
Definition toLatLng (v : jsval) : completion LatLng :=
  match v with
  | Coord p => new_LatLng (lat p) (lng p)
  | Plain a b => new_LatLng (numberOf a) (numberOf b)
  | Undefined | Array _ => Throw DegenerateInputError
  end.

(** A position whose fields the code reads itself (line 68): reading them
    when it is [null] raises. *)
Definition position (latlng : option LatLng) : completion LatLng :=
  match latlng with
  | Some p => Return p
  | None => Throw TypeError
  end.

(** A position handed to a method of the map ([latLngToLayerPoint],
    [project]): the method converts it with [new LatLng], which raises its
    error on [null]. *)
Definition mapPosition (latlng : option LatLng) : completion LatLng :=
  match latlng with
  | Some p => Return p
  | None => Throw DegenerateInputError
  end.

(** The receiver [this] of the geometry helpers supplies [distance], which
    hands both positions to [map.latLngToLayerPoint]; the helpers are
    strict-mode functions, so a plain call leaves [this] undefined, here
    [None]. *)
Definition receiver : Set := option (LMap -> LatLng -> LatLng -> float).

Definition this_distance (this : receiver) (map : LMap)
    (a b : option LatLng) : completion float :=
  match this with
  | None => Throw TypeError
  | Some distance =>
      a' <- mapPosition a ;; b' <- mapPosition b ;;
      Return (distance map a' b')
  end.

(** ** The copy of line 128 *)

(** A number through [JSON.stringify] and [JSON.parse]: NaN and the
    infinities are written [null], and [-0] is written [0]. *)
Definition json_number (x : float) : option float :=
  if is_nan x || is_infinity x then None
  else if is_zero x then Some 0%float
  else Some x.

Definition json_field (x : option float) : option float :=
  match x with
  | Some n => json_number n
  | None => None
  end.

(** [JSON.parse(JSON.stringify(v))] on what [getLatLngs] returns, arrays
    of [LatLng] instances: arrays of the same shape, whose points are plain
    objects holding the numbers as JSON writes them; [undefined] in an array
    is written [null]. *)
Fixpoint json_copy (v : jsval) : jsval :=
  match v with
  | Undefined => Undefined
  | Coord p => Plain (json_number (lat p)) (json_number (lng p))
  | Plain a b => Plain (json_field a) (json_field b)
  | Array l => Array (List.map json_copy l)
  end.

(** The result of [closest]: a [LatLng] carrying a [distance] property. *)
Record Closest : Set := mkClosest { c_latlng : LatLng; c_distance : float }.

(** The result of [closestLayer]: [{layer, latlng, distance}]. *)
Record SnapResult : Set := mkSnapResult {
  r_layer : Layer;
  r_latlng : option LatLng;
  r_distance : float
}.

Section GeometryUtil.

Variable leaflet : Leaflet.

(** ** isFlat, distanceSegment, closestOnSegment, closestOnCircle *)

(** [arr[0]] *)
Definition js_first (arr : list jsval) : jsval := nth 0 arr Undefined.

(** Line 15.  The callee [leaflet.Util.isArray] comes first: on a host that
    exports none the call raises.  With [Array.isArray], an array that
    starts with an array is not flat (its own first element is an object or
    [undefined], never a number); everything else is. *)
Definition isFlat (latlngs : list jsval) : completion bool :=
  if Util_isArray leaflet then
    match js_first latlngs with
    | Array _ => Return false
    | Undefined | Coord _ | Plain _ _ => Return true
    end
  else Throw TypeError.

Definition distanceSegment (map : LMap) (latlng : option LatLng)
    (latlngA latlngB : LatLng) : completion float :=
  q <- mapPosition latlng ;;
  let p := latLngToLayerPoint map q in
  let p1 := latLngToLayerPoint map latlngA in
  let p2 := latLngToLayerPoint map latlngB in
  Return (pointToSegmentDistance leaflet p p1 p2).

Definition closestOnSegment (map : LMap) (latlng : option LatLng)
    (latlngA latlngB : LatLng) : completion LatLng :=
  let maxzoom := getMaxZoom map in
  let maxzoom := if (maxzoom =? infinity)%float then getZoom map else maxzoom in
  q <- mapPosition latlng ;;
  let p := project map q maxzoom in
  let p1 := project map latlngA maxzoom in
  let p2 := project map latlngB maxzoom in
  let closest := closestPointOnSegment leaflet p p1 p2 in
  Return (unproject map closest maxzoom).

Definition closestOnCircle (circle : Layer) (latLng : option LatLng)
    : completion LatLng :=
  match circle with
  | Circle _ center circleRadius =>
      let radius :=
        match circleRadius with RadiusNumber r => r | RadiusObject r => r end in
      q <- position latLng ;;
      let x := lng q in
      let y := lat q in
      let cx := lng center in
      let cy := lat center in
      let dx := (x - cx)%float in
      let dy := (y - cy)%float in
      let distance := sqrt (dx * dx + dy * dy)%float in
      let tx := (cx + (dx / distance) * radius)%float in
      let ty := (cy + (dy / distance) * radius)%float in
      new_LatLng ty tx
  | _ => Throw TypeError            (* getLatLng or getRadius is missing *)
  end.

(** ** closest *)

(** Lines 131-140, on the copy, whose points are plain objects: the first
    element is pushed on every flat array; the function returns the array as
    the pushes leave it.  Every call starts with [isFlat]. *)
Fixpoint addLastSegment (latlngsArr : jsval) : completion jsval :=
  match latlngsArr with
  | Array arr =>
      flat <- isFlat arr ;;
      if flat then Return (Array (arr ++ [js_first arr]))
      else
        r <- mapM addLastSegment arr ;;
        Return (Array r)
  | Coord _ | Plain _ _ => Throw TypeError
      (* without [Util.isArray] the call of line 132; with it, [push] is not
         a function *)
  | Undefined => Throw TypeError      (* latlngs[0] of null *)
  end.

Definition elements (v : jsval) : list jsval :=
  match v with
  | Array l => l
  | Undefined | Coord _ | Plain _ _ => []
  end.

(** Leaflet's [Polyline] constructor on an array that starts with a point:
    every element goes through [new LatLng]; the layer then holds these
    points, which [getLatLngs] returns. *)
Definition new_Polyline (latlngs : list jsval) : completion (list LatLng) :=
  mapM toLatLng latlngs.

(** Lines 166-175: the segments of a flat array, minimum kept with [<=]. *)
Fixpoint segmentLoop (map : LMap) (latlng : option LatLng)
    (latlngs : list jsval) (mindist : float) (result : option Closest)
    : completion (option Closest) :=
  match latlngs with
  | a :: (b :: _) as rest =>
      latlngA <- toLatLng a ;;
      latlngB <- toLatLng b ;;
      distance <- distanceSegment map latlng latlngA latlngB ;;
      if (distance <=? mindist)%float then
        p <- closestOnSegment map latlng latlngA latlngB ;;
        segmentLoop map latlng rest distance (Some (mkClosest p distance))
      else segmentLoop map latlng rest mindist result
  | _ => Return result
  end.

(** Lines 154-162: the vertices of a flat array, minimum kept with [<]. *)
Fixpoint vertexLoop (this : receiver) (map : LMap) (latlng : option LatLng)
    (latlngs : list jsval) (mindist : float) (result : option Closest)
    : completion (option Closest) :=
  match latlngs with
  | [] => Return result
  | v :: rest =>
      ll <- toLatLng v ;;
      distance <- this_distance this map latlng (Some ll) ;;
      if (distance <? mindist)%float then
        vertexLoop this map latlng rest distance (Some (mkClosest ll distance))
      else vertexLoop this map latlng rest mindist result
  end.

(** Lines 108-114: the elements of a nested array; a [null] sub-result is
    skipped. *)
Fixpoint arrayLoop (closest : jsval -> completion (option Closest))
    (layer : list jsval) (mindist : float) (result : option Closest)
    : completion (option Closest) :=
  match layer with
  | [] => Return result
  | v :: rest =>
      subResult <- closest v ;;
      match subResult with
      | Some s =>
          if (c_distance s <? mindist)%float then
            arrayLoop closest rest (c_distance s) (Some s)
          else arrayLoop closest rest mindist result
      | None => arrayLoop closest rest mindist result
      end
  end.

(** Lines 144-150: the sub-arrays of the copied coordinates; [distance] is
    read from the sub-result without a test. *)
Fixpoint nestedLoop (closest : jsval -> completion (option Closest))
    (latlngs : list jsval) (mindist : float) (result : option Closest)
    : completion (option Closest) :=
  match latlngs with
  | [] => Return result
  | v :: rest =>
      subResult <- closest v ;;
      match subResult with
      | Some s =>
          if (c_distance s <? mindist)%float then
            nestedLoop closest rest (c_distance s) (Some s)
          else nestedLoop closest rest mindist result
      | None => Throw TypeError
      end
  end.

(** Lines 143-177, on the copied (and, for a polygon, closed) coordinates
    [latlngs]; line 143 calls [isFlat] before anything is searched. *)
Definition closestFlattened (closest : jsval -> completion (option Closest))
    (this : receiver) (map : LMap) (latlng : option LatLng) (vertices : bool)
    (latlngs : list jsval) : completion (option Closest) :=
  flat <- isFlat latlngs ;;
  if negb flat then nestedLoop closest latlngs infinity None
  else if vertices then vertexLoop this map latlng latlngs infinity None
  else segmentLoop map latlng latlngs infinity None.

(** Lines 116-119 and on, for an array that starts with a point: it
    becomes a polyline, which holds the points [new LatLng] makes of its
    elements and is no polygon; line 128 copies them and lines 143-177
    search the copy.  The elements of the copy are points, for which
    [closest] answers [null] (lines 106 and 125). *)
Definition closestPoints (this : receiver) (map : LMap)
    (layer : list jsval) (latlng : option LatLng) (vertices : bool)
    : completion (option Closest) :=
  points <- new_Polyline layer ;;
  closestFlattened (fun _ => Return None) this map latlng vertices
    (List.map (fun p => json_copy (Coord p)) points).

(** [closest] on a raw array (lines 106-123 and on).  The recursive calls
    are plain calls: their receiver is undefined.  Lines 116-118 look at the
    first element: a [LatLng], a pair of numbers, or an object whose [lat]
    is a number; in a JSON copy, [lat] may be [null]. *)
Fixpoint closestValue (this : receiver) (map : LMap) (v : jsval)
    (latlng : option LatLng) (vertices : bool) {struct v}
    : completion (option Closest) :=
  match v with
  | Array layer =>
      match js_first layer with
      | Array _ =>
          arrayLoop (fun e => closestValue None map e latlng vertices)
            layer infinity None
      | Coord _ | Plain (Some _) _ =>
          closestPoints this map layer latlng vertices
      | Plain None _ => Return None
      | Undefined => Throw TypeError            (* layer[0][0] *)
      end
  | Undefined | Coord _ | Plain _ _ => Return None
  end.

(** [closest] (lines 100-178).  Line 128 copies the coordinates of the layer,
    [JSON.parse(JSON.stringify(layer.getLatLngs().slice(0)))]; for a polygon
    the closing points are pushed on the copy; lines 143-177 search the
    copy. *)
Definition closest (this : receiver) (map : LMap) (layer : shape)
    (latlng : option LatLng) (vertices : bool) : completion (option Closest) :=
  match layer with
  | SValue v => closestValue this map v latlng vertices
  | SLayer (Polyline _ latlngs) =>
      closestFlattened (fun e => closestValue None map e latlng vertices)
        this map latlng vertices (List.map json_copy latlngs)
  | SLayer (Polygon _ latlngs) =>
      closed <- addLastSegment (Array (List.map json_copy latlngs)) ;;
      closestFlattened (fun e => closestValue None map e latlng vertices)
        this map latlng vertices (elements closed)
  | SLayer _ => Return None
  end.

(** ** closestLayer *)

(** The variables of the loop of [closestLayer]. *)
Record Locals : Set := mkLocals {
  mindist : float;
  result : option SnapResult;
  ll : option LatLng;
  dist : float                      (* the variable [distance] *)
}.

Definition locals0 : Locals := mkLocals infinity None None infinity.

Fixpoint forLayers (body : Layer -> Locals -> completion Locals)
    (layers : list Layer) (st : Locals) : completion Locals :=
  match layers with
  | [] => Return st
  | l :: rest => st' <- body l st ;; forLayers body rest st'
  end.

(** Lines 215-222. *)
Definition keepCloser (l : Layer) (st : Locals) : Locals :=
  if (dist st <? mindist st)%float then
    mkLocals (dist st) (Some (mkSnapResult l (ll st) (dist st))) (ll st)
      (dist st)
  else st.

(** One iteration of the loop (lines 197-223). *)
Fixpoint closestLayerBody (this : receiver) (map : LMap)
    (latlng : option LatLng) (l : Layer) (st : Locals) {struct l}
    : completion Locals :=
  match l with
  | LayerGroup _ layers =>
      sub <- forLayers (closestLayerBody None map latlng) layers locals0 ;;
      match result sub with
      | None => Throw TypeError                 (* subResult.distance *)
      | Some subResult =>
          if (r_distance subResult <? mindist st)%float then
            Return (mkLocals (r_distance subResult) (Some subResult)
                      (ll st) (dist st))
          else Return st
      end
  | Circle _ _ _ =>
      p <- closestOnCircle l latlng ;;
      d <- this_distance this map latlng (Some p) ;;
      Return (keepCloser l (mkLocals (mindist st) (result st) (Some p) d))
  | Marker _ p =>
      d <- this_distance this map latlng (Some p) ;;
      Return (keepCloser l (mkLocals (mindist st) (result st) (Some p) d))
  | Polyline _ _ | Polygon _ _ | GridLayer _ =>
      c <- closest None map (SLayer l) latlng false ;;
      match c with
      | Some c =>
          Return (keepCloser l (mkLocals (mindist st) (result st)
                                  (Some (c_latlng c)) (c_distance c)))
      | None =>
          Return (keepCloser l (mkLocals (mindist st) (result st)
                                  None (dist st)))
      end
  end.

Definition closestLayer (this : receiver) (map : LMap) (layers : list Layer)
    (latlng : option LatLng) : completion (option SnapResult) :=
  st <- forLayers (closestLayerBody this map latlng) layers locals0 ;;
  Return (result st).

(** ** closestLayerSnap *)

Definition has_getLatLngs (l : Layer) : bool :=
  match l with
  | Polyline _ _ | Polygon _ _ => true
  | _ => false
  end.

Definition closestLayerSnap (this : receiver) (map : LMap)
    (layers : list Layer) (latlng : option LatLng) (tolerance : float)
    (withVertices : bool) : completion (option SnapResult) :=
  result <- closestLayer None map layers latlng ;;
  match result with
  | None => Return None
  | Some r =>
      if (tolerance <? r_distance r)%float then Return None
      else if withVertices && has_getLatLngs (r_layer r) then
        closestResult <-
          closest None map (SLayer (r_layer r)) (r_latlng r) true ;;
        match closestResult with
        | None => Throw TypeError               (* closestResult.distance *)
        | Some c =>
            if (c_distance c <? tolerance)%float then
              d <- this_distance this map (Some (c_latlng c)) latlng ;;
              Return (Some (mkSnapResult (r_layer r) (Some (c_latlng c)) d))
            else Return (Some r)
        end
      else Return (Some r)
  end.

End GeometryUtil.

(** ** AlmostOverHandler *)

Inductive EventType : Set := mousemove | click | dblclick.

(** [L.MouseEvent]: the fields the handler reads. *)
Record MouseEvent : Set := mkMouseEvent {
  e_latlng : option LatLng;
  e_type : EventType
}.

(** What [this._map.fire] is called with. *)
Inductive Event : Set :=
| almost_over (layer : Layer) (latlng : option LatLng)
| almost_out (layer : Layer)
| almost_move (layer : Layer) (latlng : option LatLng)
| almost_type (type : EventType) (layer : Layer) (latlng : option LatLng).

(** The fields of the handler that its methods read after [initialize];
    [_marker] stays [null], [_buffer] is written by [addHooks] only, and the
    sampler is [_onMouseMove] behind Leaflet's throttle. *)
Record AlmostOverHandler : Set := mkHandler {
  _map : LMap;
  _layers : list Layer;
  _previous : option SnapResult
}.

(** The handler and the events its map has been asked to fire, oldest
    first. *)
Record World : Set := mkWorld {
  handler : AlmostOverHandler;
  fired : list Event
}.

(** A method: it changes the world and completes normally or by a throw;
    what it did before a throw stays done. *)
Definition M (A : Type) : Type := World -> World * completion A.

Definition ret {A : Type} (a : A) : M A := fun w => (w, Return a).

Definition mbind {A B : Type} (c : M A) (k : A -> M B) : M B :=
  fun w =>
    match c w with
    | (w', Return a) => k a w'
    | (w', Throw e) => (w', Throw e)
    end.

Definition lift {A : Type} (c : completion A) : M A := fun w => (w, c).

Definition this_ : M AlmostOverHandler := fun w => (w, Return (handler w)).

Definition set_layers (l : list Layer) : M unit :=
  fun w =>
    (mkWorld (mkHandler (_map (handler w)) l (_previous (handler w))) (fired w),
     Return tt).

Definition set_previous (p : option SnapResult) : M unit :=
  fun w =>
    (mkWorld (mkHandler (_map (handler w)) (_layers (handler w)) p) (fired w),
     Return tt).

Definition fire (e : Event) : M unit :=
  fun w => (mkWorld (handler w) (fired w ++ [e]), Return tt).

Declare Scope handler_scope.
Delimit Scope handler_scope with handler.
Notation "x <- c ;; k" := (mbind c (fun x => k))
  (at level 61, c at next level, right associativity) : handler_scope.
Notation "c ;;; k" := (mbind c (fun _ => k))
  (at level 61, right associativity) : handler_scope.

Section Handler.

Variable leaflet : Leaflet.

Open Scope handler_scope.

Definition initialize (map : LMap) : World :=
  mkWorld (mkHandler map [] None) [].

(** [layer.eachLayer(fn)]: the children of a group, in order. *)
Fixpoint eachLayer (fn : Layer -> M unit) (layers : list Layer) : M unit :=
  match layers with
  | [] => ret tt
  | l :: rest => fn l ;;; eachLayer fn rest
  end.

Fixpoint addLayer (layer : Layer) : M unit :=
  match layer with
  | LayerGroup _ layers => eachLayer addLayer layers
  | _ =>
      h <- this_ ;;
      set_layers (_layers h ++ [layer])
  end.

(** [this._layers.indexOf(layer)]: the first index holding that very
    object. *)
Fixpoint indexOf (layers : list Layer) (layer : Layer) : option nat :=
  match layers with
  | [] => None
  | l :: rest =>
      if stamp l =? stamp layer then Some 0
      else option_map S (indexOf rest layer)
  end.

(** [splice(index, 1)] *)
Fixpoint splice1 (layers : list Layer) (index : nat) : list Layer :=
  match layers, index with
  | [], _ => []
  | _ :: rest, 0 => rest
  | l :: rest, S i => l :: splice1 rest i
  end.

Fixpoint removeLayer (layer : Layer) : M unit :=
  match layer with
  | LayerGroup _ layers => eachLayer removeLayer layers
  | _ =>
      h <- this_ ;;
      match indexOf (_layers h) layer with
      | Some index => set_layers (splice1 (_layers h) index)
      | None => ret tt
      end
  end ;;;
  set_previous None.

Definition getClosest (h : AlmostOverHandler) (latlng : option LatLng)
    : completion (option SnapResult) :=
  let distance := almostDistance (_map h) in
  let snaplist := _layers h in
  closestLayerSnap leaflet None (_map h) snaplist latlng distance false.

Definition _onMouseMove (e : MouseEvent) : M unit :=
  match e_latlng e with
  | None => ret tt
  | Some _ =>
      h <- this_ ;;
      closest <- lift (getClosest h (e_latlng e)) ;;
      match closest with
      | Some c =>
          match _previous h with
          | None => fire (almost_over (r_layer c) (r_latlng c))
          | Some previous =>
              if negb (stamp (r_layer previous) =? stamp (r_layer c)) then
                fire (almost_out (r_layer previous)) ;;;
                fire (almost_over (r_layer c) (r_latlng c))
              else ret tt
          end ;;;
          fire (almost_move (r_layer c) (r_latlng c))
      | None =>
          match _previous h with
          | Some previous => fire (almost_out (r_layer previous))
          | None => ret tt
          end
      end ;;;
      set_previous closest
  end.

Definition _onMouseClick (e : MouseEvent) : M unit :=
  h <- this_ ;;
  closest <- lift (getClosest h (e_latlng e)) ;;
  match closest with
  | Some c => fire (almost_type (e_type e) (r_layer c) (r_latlng c))
  | None => ret tt
  end.

(** The calls a session makes on its handler. *)
Inductive Call : Set :=
| CallAddLayer (layer : Layer)
| CallRemoveLayer (layer : Layer)
| CallMouseMove (e : MouseEvent)
| CallMouseClick (e : MouseEvent).

Definition call (c : Call) : M unit :=
  match c with
  | CallAddLayer l => addLayer l
  | CallRemoveLayer l => removeLayer l
  | CallMouseMove e => _onMouseMove e
  | CallMouseClick e => _onMouseClick e
  end.

(** The world after a call, whether it returned or threw. *)
Definition after (c : Call) (w : World) : World := fst (call c w).

Definition session (map : LMap) (calls : list Call) : World :=
  fold_left (fun w c => after c w) calls (initialize map).

Close Scope handler_scope.

End Handler.

(** ** A flat map for the examples

    Modelled from the spec: the host functions of section 6, which belong to
    the host platform and not to this repository, in "a flat local coordinate
    system with projection identity" (section 8); [LineUtil] clamps the
    projection of the point on the segment (section 4.1). *)
Module Flat.

Open Scope float_scope.

Definition toPoint (p : LatLng) : Point := mkPoint (lng p) (lat p).

Definition map : LMap :=
  mkLMap toPoint
         (fun p _ => toPoint p)
         (fun p _ => mkLatLng (py p) (px p))
         infinity 0 25.

Definition sqClosestPointOnSegment (p p1 p2 : Point) : Point :=
  let x := px p1 in
  let y := py p1 in
  let dx := px p2 - x in
  let dy := py p2 - y in
  let dot := dx * dx + dy * dy in
  if 0 <? dot then
    let t := ((px p - x) * dx + (py p - y) * dy) / dot in
    if 1 <? t then p2
    else if 0 <? t then mkPoint (x + dx * t) (y + dy * t)
    else mkPoint x y
  else mkPoint x y.

Definition distanceTo (p q : Point) : float :=
  let dx := px q - px p in
  let dy := py q - py p in
  sqrt (dx * dx + dy * dy).

(** Leaflet 2: no [Util.isArray]. *)
Definition leaflet : Leaflet :=
  mkLeaflet (fun p p1 p2 => distanceTo p (sqClosestPointOnSegment p p1 p2))
            sqClosestPointOnSegment
            false.

(** The same host with [Util.isArray], as Leaflet 1 exports it. *)
Definition leaflet1 : Leaflet :=
  mkLeaflet (fun p p1 p2 => distanceTo p (sqClosestPointOnSegment p p1 p2))
            sqClosestPointOnSegment
            true.

(** [GeometryUtil.distance], for a receiver that has it. *)
Definition distance (m : LMap) (a b : LatLng) : float :=
  distanceTo (latLngToLayerPoint m a) (latLngToLayerPoint m b).

Definition pt (x y : float) : jsval := Coord (mkLatLng y x).

Close Scope float_scope.

End Flat.

(** ** Lines 128-141 on a store of arrays

    [closest] does not work on the arrays of the layer: line 128 copies them,
    and the pushes of lines 131-140 are made on the copy.  Here arrays live in
    a store and are named by their address; points are immutable values. *)

Inductive cell : Set :=
| CUndefined
| CCoord (p : LatLng)
| CPlain (lat lng : option float)
| CRef (a : nat).                   (* the array at address [a] *)

(** The array at address [a] is the [a]-th entry; a new array goes at the
    end. *)
Definition store : Set := list (list cell).

(** The value reachable from a cell.  [fuel] bounds the depth; a store of
    [n] arrays has no acyclic path longer than [n]. *)
Fixpoint readValue (fuel : nat) (s : store) (c : cell) : completion jsval :=
  match c with
  | CUndefined => Return Undefined
  | CCoord p => Return (Coord p)
  | CPlain a b => Return (Plain a b)
  | CRef a =>
      match fuel with
      | 0 => Throw TypeError
      | S fuel' =>
          match nth_error s a with
          | None => Throw TypeError
          | Some arr =>
              l <- mapM (readValue fuel' s) arr ;; Return (Array l)
          end
      end
  end.

Definition read (s : store) (c : cell) : completion jsval :=
  readValue (S (length s)) s c.

(** [JSON.parse(JSON.stringify(c))] as a value: what is reachable from the
    cell, with the numbers as JSON writes them.  A structure that contains
    itself raises TypeError. *)
Definition JSON_stringify (s : store) (c : cell) : completion jsval :=
  v <- read s c ;; Return (json_copy v).

(** [JSON.parse] builds fresh arrays: those of a value are laid out from
    address [base] on, the elements of an array before the array itself. *)
Fixpoint layoutAll (layout : nat -> jsval -> list (list cell) * cell)
    (base : nat) (l : list jsval) : list (list cell) * list cell :=
  match l with
  | [] => ([], [])
  | v :: rest =>
      let '(b, c) := layout base v in
      let '(bs, cs) := layoutAll layout (base + length b) rest in
      (b ++ bs, c :: cs)
  end.

Fixpoint layout (base : nat) (v : jsval) : list (list cell) * cell :=
  match v with
  | Undefined => ([], CUndefined)
  | Coord p => ([], CCoord p)
  | Plain a b => ([], CPlain a b)
  | Array l =>
      let '(blocks, cells) := layoutAll layout base l in
      (blocks ++ [cells], CRef (base + length blocks))
  end.

Definition JSON_parse (v : jsval) (s : store) : store * cell :=
  let '(block, c) := layout (length s) v in (s ++ block, c).

(** [arr.slice(0)]: a new array with the same cells. *)
Definition slice0 (a : nat) (s : store) : store * completion cell :=
  match nth_error s a with
  | Some arr => (s ++ [arr], Return (CRef (length s)))
  | None => (s, Throw TypeError)
  end.

Fixpoint update (a : nat) (arr : list cell) (s : store) : store :=
  match s, a with
  | [], _ => []
  | _ :: rest, 0 => arr :: rest
  | x :: rest, S a' => x :: update a' arr rest
  end.

Definition c_first (arr : list cell) : cell := nth 0 arr CUndefined.

(** [isFlat] (line 15) on an array of the copy. *)
Definition isFlat_st (leaflet : Leaflet) (arr : list cell)
    : completion bool :=
  if Util_isArray leaflet then
    match c_first arr with
    | CRef _ => Return false
    | CUndefined | CCoord _ | CPlain _ _ => Return true
    end
  else Throw TypeError.

Fixpoint forEach_st (f : cell -> store -> store * completion unit)
    (cells : list cell) (s : store) : store * completion unit :=
  match cells with
  | [] => (s, Return tt)
  | c :: rest =>
      match f c s with
      | (s', Return _) => forEach_st f rest s'
      | (s', Throw e) => (s', Throw e)
      end
  end.

(** [addLastSegment] as the code runs it: [push] changes the array in
    place.  [fuel] is the depth of the call stack. *)
Fixpoint addLastSegment_st (leaflet : Leaflet) (fuel : nat) (c : cell)
    (s : store) : store * completion unit :=
  match fuel with
  | 0 => (s, Throw RangeError)
  | S fuel' =>
      match c with
      | CRef a =>
          match nth_error s a with
          | None => (s, Throw TypeError)
          | Some arr =>
              match isFlat_st leaflet arr with
              | Throw e => (s, Throw e)
              | Return true =>
                  (update a (arr ++ [c_first arr]) s, Return tt)
              | Return false =>
                  forEach_st (addLastSegment_st leaflet fuel') arr s
              end
          end
      | CUndefined | CCoord _ | CPlain _ _ => (s, Throw TypeError)
      end
  end.

(** Lines 128-141: [a] is the address of [layer.getLatLngs()]; the result is
    the cell of [latlngs]. *)
Definition copyLatLngs (leaflet : Leaflet) (isPolygon : bool) (a : nat)
    (s : store) : store * completion cell :=
  match slice0 a s with
  | (s1, Throw e) => (s1, Throw e)
  | (s1, Return sliced) =>
      match JSON_stringify s1 sliced with
      | Throw e => (s1, Throw e)
      | Return text =>
          let '(s2, latlngs) := JSON_parse text s1 in
          if isPolygon then
            match addLastSegment_st leaflet (S (length s2)) latlngs s2 with
            | (s3, Return _) => (s3, Return latlngs)
            | (s3, Throw e) => (s3, Throw e)
            end
          else (s2, Return latlngs)
      end
  end.

(** [closest] on a polyline or polygon whose coordinates are the array at
    address [a].  After line 141 the function only reads the copy; the
    recursive calls and the constructors they use build arrays of their
    own. *)
Definition closest_st (leaflet : Leaflet) (this : receiver) (map : LMap)
    (isPolygon : bool) (a : nat) (latlng : option LatLng) (vertices : bool)
    (s : store) : store * completion (option Closest) :=
  match copyLatLngs leaflet isPolygon a s with
  | (s', Throw e) => (s', Throw e)
  | (s', Return c) =>
      (s',
       latlngs <- read s' c ;;
       closestFlattened leaflet
         (fun e => closestValue leaflet None map e latlng vertices)
         this map latlng vertices (elements latlngs))
  end.

(** The nesting depth of a value. *)
Fixpoint depth (v : jsval) : nat :=
  match v with
  | Array l => S (fold_right (fun x n => Nat.max (depth x) n) 0 l)
  | Undefined | Coord _ | Plain _ _ => 0
  end.

(** ** Vocabulary of the statements *)

(** A number whose quotient by itself is NaN. *)
Definition zero_or_nan (x : float) : Prop :=
  (exists s, Prim2SF x = S754_zero s)%float \/ Prim2SF x = S754_nan.

(** What [closest] can decompose into points: an array, a polyline or a
    polygon. *)
Definition decomposable (layer : shape) : bool :=
  match layer with
  | SValue (Array _) => true
  | SLayer (Polyline _ _) | SLayer (Polygon _ _) => true
  | _ => false
  end.

(** A group is a layer with [eachLayer]. *)
Definition has_eachLayer (l : Layer) : bool :=
  match l with
  | LayerGroup _ _ => true
  | _ => false
  end.

(** The leaf shapes of a layer: the layer itself, or the leaves of the
    children of a group, in order. *)
Fixpoint leaves (l : Layer) : list Layer :=
  match l with
  | LayerGroup _ layers => flat_map leaves layers
  | _ => [l]
  end.

(** How many entries of a list are the object with that stamp. *)
Definition registrations (id : nat) (layers : list Layer) : nat :=
  length (filter (fun l => stamp l =? id) layers).

(** One registration of [layer] less: what lines 354-357 do to [_layers]. *)
Definition unregisterOne (layers : list Layer) (layer : Layer) : list Layer :=
  match indexOf layers layer with
  | Some index => splice1 layers index
  | None => layers
  end.

(** *** Induction principles and auxiliary notions *)

(** Induction on a layer, with the property known of the children of a
    group. *)
Section LayerInduction.

Variable P : Layer -> Prop.
Hypothesis P_polyline : forall id latlngs, P (Polyline id latlngs).
Hypothesis P_polygon : forall id latlngs, P (Polygon id latlngs).
Hypothesis P_circle : forall id center radius, P (Circle id center radius).
Hypothesis P_marker : forall id p, P (Marker id p).
Hypothesis P_grid : forall id, P (GridLayer id).
Hypothesis P_group :
  forall id layers, Forall P layers -> P (LayerGroup id layers).

Fixpoint Layer_nested_ind (l : Layer) : P l :=
  match l with
  | Polyline id latlngs => P_polyline id latlngs
  | Polygon id latlngs => P_polygon id latlngs
  | Circle id center radius => P_circle id center radius
  | Marker id p => P_marker id p
  | GridLayer id => P_grid id
  | LayerGroup id layers =>
      P_group id
        ((fix children (ls : list Layer) : Forall P ls :=
            match ls with
            | [] => Forall_nil P
            | x :: rest => Forall_cons x (Layer_nested_ind x) (children rest)
            end) layers)
  end.

End LayerInduction.

(** Induction on a value, with the property known of the elements of an
    array. *)
Section ValueInduction.

Variable P : jsval -> Prop.
Hypothesis P_undefined : P Undefined.
Hypothesis P_coord : forall p, P (Coord p).
Hypothesis P_plain : forall a b, P (Plain a b).
Hypothesis P_array : forall l, Forall P l -> P (Array l).

Fixpoint jsval_nested_ind (v : jsval) : P v :=
  match v with
  | Undefined => P_undefined
  | Coord p => P_coord p
  | Plain a b => P_plain a b
  | Array l =>
      P_array
        ((fix elements_ok (l : list jsval) : Forall P l :=
            match l with
            | [] => Forall_nil P
            | x :: rest => Forall_cons x (jsval_nested_ind x) (elements_ok rest)
            end) l)
  end.

End ValueInduction.

(** The world with another list of layers, or another tracked result. *)
Definition withLayers (w : World) (layers : list Layer) : World :=
  mkWorld (mkHandler (_map (handler w)) layers (_previous (handler w)))
          (fired w).

Definition withPrevious (w : World) (p : option SnapResult) : World :=
  mkWorld (mkHandler (_map (handler w)) (_layers (handler w)) p) (fired w).

(** Reading the laid-out value back gives the value. *)
Definition reads_back (v : jsval) : Prop :=
  forall (pre post : store) (fuel : nat),
    depth v <= fuel ->
    readValue fuel (pre ++ fst (layout (length pre) v) ++ post)
      (snd (layout (length pre) v))
    = Return v.

(** *** Vocabulary of the further properties *)

(** The order of binary64 numbers that are not NaN, read on their
    decomposition: a class (infinities, negative, zero, positive), then
    exponent and mantissa, both negated for a negative number. *)
Definition SFkey (x : spec_float) : Z * (Z * Z) :=
  match x with
  | S754_nan => (0, (0, 0))%Z
  | S754_zero _ => (0, (0, 0))%Z
  | S754_infinity true => (-2, (0, 0))%Z
  | S754_infinity false => (2, (0, 0))%Z
  | S754_finite true m e => (-1, (- e, - Zpos m))%Z
  | S754_finite false m e => (1, (e, Zpos m))%Z
  end.

Definition SFnan (x : spec_float) : bool :=
  match x with
  | S754_nan => true
  | _ => false
  end.

Definition key_lt (a b : Z * (Z * Z)) : Prop :=
  (fst a < fst b
   \/ fst a = fst b
      /\ (fst (snd a) < fst (snd b)
          \/ fst (snd a) = fst (snd b) /\ snd (snd a) < snd (snd b)))%Z.

(** The layer an event is about. *)
Definition event_layer (e : Event) : Layer :=
  match e with
  | almost_over l _ | almost_out l | almost_move l _ | almost_type _ l _ => l
  end.

Definition same_stamp (tracked : option nat) (l : Layer) : bool :=
  match tracked with
  | Some id => id =? stamp l
  | None => false
  end.

(** The stamp of the layer the listeners have been told the pointer is over,
    after a sequence of events. *)
Fixpoint trackedAfter (tracked : option nat) (events : list Event)
    : option nat :=
  match events with
  | [] => tracked
  | almost_over l _ :: rest => trackedAfter (Some (stamp l)) rest
  | almost_out _ :: rest => trackedAfter None rest
  | (almost_move _ _ | almost_type _ _ _) :: rest => trackedAfter tracked rest
  end.

(** Every [almost:out] and every [almost:move] is about the layer of the
    latest [almost:over], with no [almost:out] in between. *)
Fixpoint follows (tracked : option nat) (events : list Event) : bool :=
  match events with
  | [] => true
  | almost_over l _ :: rest => follows (Some (stamp l)) rest
  | almost_out l :: rest => same_stamp tracked l && follows None rest
  | almost_move l _ :: rest => same_stamp tracked l && follows tracked rest
  | almost_type _ _ _ :: rest => follows tracked rest
  end.

(** A layer whose position goes through [this.distance] in
    [closestLayer]. *)
Definition needs_receiver (l : Layer) : bool :=
  match l with
  | Circle _ _ _ | Marker _ _ => true
  | _ => false
  end.

(** A result of [closestLayer] that can be announced: its layer is among the
    layers [P], its position is there, its distance is below Infinity. *)
Definition sound_result (P : Layer -> Prop) (r : SnapResult) : Prop :=
  P (r_layer r) /\ r_latlng r <> None
  /\ (r_distance r <? infinity)%float = true.

(** [mindist] and [result] go together. *)
Definition sound_best (P : Layer -> Prop) (m : float)
    (r : option SnapResult) : Prop :=
  (m = infinity /\ r = None)
  \/ exists x, r = Some x /\ m = r_distance x /\ sound_result P x.

(** The variables of the loop between two iterations: the distance left in
    [distance] is not below [mindist]. *)
Definition sound_locals (P : Layer -> Prop) (st : Locals) : Prop :=
  (dist st <? mindist st)%float = false
  /\ sound_best P (mindist st) (result st).

(** The events a pointer move fires, oldest first, from the tracked result
    and the result of the query (lines 389-404). *)
Definition moveEvents (previous closest : option SnapResult) : list Event :=
  match closest, previous with
  | Some c, None =>
      [almost_over (r_layer c) (r_latlng c);
       almost_move (r_layer c) (r_latlng c)]
  | Some c, Some p =>
      if stamp (r_layer p) =? stamp (r_layer c) then
        [almost_move (r_layer c) (r_latlng c)]
      else
        [almost_out (r_layer p);
         almost_over (r_layer c) (r_latlng c);
         almost_move (r_layer c) (r_latlng c)]
  | None, Some p => [almost_out (r_layer p)]
  | None, None => []
  end.

(** The tracked result is about a registered layer, within the tolerance of
    the map, and no registered layer is a group. *)
Definition tracks_registered (map : LMap) (w : World) : Prop :=
  _map (handler w) = map
  /\ Forall (fun l => has_eachLayer l = false) (_layers (handler w))
  /\ forall p : SnapResult,
       _previous (handler w) = Some p ->
       In (r_layer p) (_layers (handler w))
       /\ r_latlng p <> None
       /\ (almostDistance map <? r_distance p)%float = false.

(** The events fired so far follow the protocol, and the listeners have been
    told that the pointer is over the tracked layer. *)
Definition told (w : World) : Prop :=
  follows None (fired w) = true
  /\ forall p : SnapResult,
       _previous (handler w) = Some p ->
       trackedAfter None (fired w) = Some (stamp (r_layer p)).

(** The calls and the events of clicks. *)
Definition is_click (c : Call) : bool :=
  match c with
  | CallMouseClick _ => true
  | _ => false
  end.

Definition is_almost_type (ev : Event) : bool :=
  match ev with
  | almost_type _ _ _ => true
  | _ => false
  end.

Definition is_addLayer (c : Call) : bool :=
  match c with
  | CallAddLayer _ => true
  | _ => false
  end.

(** A layer of none of the kinds the searches know: no group, circle,
    marker, polyline or polygon. *)
Definition is_other (l : Layer) : bool :=
  match l with
  | GridLayer _ => true
  | _ => false
  end.

(** The variables of the loop of [closestLayer] while nothing is found. *)
Definition nothing_found (st : Locals) : Prop :=
  result st = None
  /\ mindist st = infinity
  /\ (dist st <? infinity)%float = false.


(** * Properties *)

(** ** Facts on binary64 numbers *)

Section FloatFacts.

Open Scope float_scope.

Lemma is_nan_of_spec (x : float) : Prim2SF x = S754_nan -> is_nan x = true.
Proof.
  intros H. unfold is_nan. rewrite FloatAxioms.eqb_spec, H. reflexivity.
Qed.

Lemma sub_diag_zero_or_nan (x : float) : zero_or_nan (x - x).
Proof.
  unfold zero_or_nan. rewrite sub_spec.
  destruct (Prim2SF x) as [s|s| |s m e] eqn:E; cbn.
  - left. destruct s; eauto.
  - right. destruct s; reflexivity.
  - right; reflexivity.
  - left. unfold SF64sub, SFsub, shl_align.
    replace (Z.min e e - e)%Z with 0%Z by lia. cbn [fst].
    rewrite Z.sub_diag. cbn. eauto.
Qed.

Lemma mul_zero_or_nan (x y : float) :
  zero_or_nan x -> zero_or_nan y -> zero_or_nan (x * y).
Proof.
  unfold zero_or_nan. rewrite mul_spec.
  intros [[s ->]| ->] [[t ->]| ->]; cbn; eauto.
Qed.

Lemma add_zero_or_nan (x y : float) :
  zero_or_nan x -> zero_or_nan y -> zero_or_nan (x + y).
Proof.
  unfold zero_or_nan. rewrite add_spec.
  intros [[s ->]| ->] [[t ->]| ->]; cbn; eauto.
  destruct s, t; cbn; eauto.
Qed.

Lemma sqrt_zero_or_nan (x : float) : zero_or_nan x -> zero_or_nan (sqrt x).
Proof.
  unfold zero_or_nan. rewrite sqrt_spec.
  intros [[s ->]| ->]; cbn; eauto.
Qed.

Lemma div_zero_or_nan (x y : float) :
  zero_or_nan x -> zero_or_nan y -> Prim2SF (x / y) = S754_nan.
Proof.
  unfold zero_or_nan. rewrite div_spec.
  intros [[s ->]| ->] [[t ->]| ->]; cbn; eauto.
Qed.

Lemma mul_nan_l (x y : float) :
  Prim2SF x = S754_nan -> Prim2SF (x * y) = S754_nan.
Proof. intros H. rewrite mul_spec, H. reflexivity. Qed.

Lemma add_nan_r (x y : float) :
  Prim2SF y = S754_nan -> Prim2SF (x + y) = S754_nan.
Proof. intros H. rewrite add_spec, H. destruct (Prim2SF x); reflexivity. Qed.

(** The point the circle computation builds when the vector from the centre
    is [(x - x, y - y)]: its coordinate is NaN. *)
Lemma normalized_zero_vector_nan (x y c r : float) :
  is_nan (c + ((x - x) / sqrt ((x - x) * (x - x) + (y - y) * (y - y))) * r)
  = true.
Proof.
  apply is_nan_of_spec, add_nan_r, mul_nan_l, div_zero_or_nan.
  - apply sub_diag_zero_or_nan.
  - apply sqrt_zero_or_nan, add_zero_or_nan;
      apply mul_zero_or_nan; apply sub_diag_zero_or_nan.
Qed.

End FloatFacts.

(** ** The result monad *)

Lemma forLayers_app (body : Layer -> Locals -> completion Locals)
    (pre post : list Layer) (st : Locals) :
  forLayers body (pre ++ post) st =
  (st' <- forLayers body pre st ;; forLayers body post st').
Proof.
  revert st. induction pre as [|l pre IH]; intros st; cbn; [reflexivity|].
  destruct (body l st) as [st'|e]; cbn; [apply IH | reflexivity].
Qed.

(** ** C1: a circle centred on the query point *)

Lemma closestOnCircle_center (id : nat) (center : LatLng) (radius : Radius) :
  closestOnCircle (Circle id center radius) (Some center)
  = Throw DegenerateInputError.
Proof.
  unfold closestOnCircle, position, bind, new_LatLng.
  rewrite normalized_zero_vector_nan, orb_true_r. reflexivity.
Qed.

(** C1, as the code has it: for every circle whose center equals the query
    point, [closestOnCircle] fails with the error of the [LatLng] constructor
    (DegenerateInputError), and [closestLayer] does not guard the call: the
    failure reaches its caller, with that very error when the circle is the
    first layer of the list and with some error wherever the circle stands in
    the list. *)
Theorem closestLayer_center_circle_throws :
  forall (leaflet : Leaflet) (this : receiver) (map : LMap) (id : nat)
         (center : LatLng) (radius : Radius) (pre post : list Layer),
    closestOnCircle (Circle id center radius) (Some center)
    = Throw DegenerateInputError
    /\ closestLayer leaflet this map (Circle id center radius :: post)
         (Some center)
       = Throw DegenerateInputError
    /\ exists e : exn,
         closestLayer leaflet this map (pre ++ Circle id center radius :: post)
           (Some center)
         = Throw e.
Proof.
  intros. split; [apply closestOnCircle_center|]. split.
  - unfold closestLayer. cbn [forLayers closestLayerBody].
    rewrite closestOnCircle_center. reflexivity.
  - unfold closestLayer. rewrite forLayers_app.
    destruct (forLayers _ pre locals0) as [st|e]; cbn [bind].
    + exists DegenerateInputError. cbn [forLayers closestLayerBody].
      rewrite closestOnCircle_center. reflexivity.
    + exists e. reflexivity.
Qed.

(** C1 as the specification states it fails: with the circle centred on the
    query point first in the list, the search raises the error of the circle
    instead of passing it over and answering [null], its answer for the rest
    of the list. *)
Lemma closestLayer_center_circle_counterexample :
  let circle := Circle 2 (mkLatLng 1 5) (RadiusNumber 3) in
  let other := GridLayer 1 in
  let q := Some (mkLatLng 1 5) in
  closestLayer Flat.leaflet None Flat.map [other] q = Return None
  /\ closestLayer Flat.leaflet None Flat.map [circle; other] q
     = Throw DegenerateInputError
  /\ closestLayer Flat.leaflet None Flat.map [circle; other] q
     <> Return None.
Proof. split; [reflexivity | split; [reflexivity | discriminate]]. Qed.

(** ** C6: a shape that cannot be decomposed into points *)

(** C6, as the code has it: for every input that is neither an array nor a
    polyline or polygon (a marker, a circle, a group, another layer, a bare
    point, an undefined value), [closest] returns [null]; it raises
    nothing. *)
Theorem closest_not_decomposable_null :
  forall (leaflet : Leaflet) (this : receiver) (map : LMap) (layer : shape)
         (latlng : option LatLng) (vertices : bool),
    decomposable layer = false ->
    closest leaflet this map layer latlng vertices = Return None.
Proof.
  intros leaflet this map layer latlng vertices H.
  destruct layer as [l|v].
  - destruct l; cbn in H; try discriminate; reflexivity.
  - destruct v; cbn in H; try discriminate; reflexivity.
Qed.

Lemma closest_not_decomposable_null_witness :
  decomposable (SLayer (Marker 1 (mkLatLng 0 0))) = false
  /\ closest Flat.leaflet None Flat.map (SLayer (Marker 1 (mkLatLng 0 0)))
       (Some (mkLatLng 1 5)) false
     = Return None.
Proof.
  split; [reflexivity|].
  apply (closest_not_decomposable_null Flat.leaflet None Flat.map
           (SLayer (Marker 1 (mkLatLng 0 0))) (Some (mkLatLng 1 5)) false).
  reflexivity.
Defined.

(** C6 as the specification states it fails: on a marker [closest] completes
    normally, with [null]; no error is raised. *)
Lemma closest_unsupported_counterexample :
  closest Flat.leaflet None Flat.map (SLayer (Marker 1 (mkLatLng 0 0)))
    (Some (mkLatLng 1 5)) false
  = Return None
  /\ forall e : exn,
       closest Flat.leaflet None Flat.map (SLayer (Marker 1 (mkLatLng 0 0)))
         (Some (mkLatLng 1 5)) false
       <> Throw e.
Proof. split; [reflexivity | intros e; discriminate]. Qed.

(** ** C10: totality of the collection search *)

(** C10, where the code departs from it: [closestLayer] raises TypeError on a
    list that holds an empty group (line 200 reads [distance] of a [null]
    sub-result), on a circle or a marker when the call has no receiver
    ([this.distance] at lines 207 and 210), and on a polyline one of whose
    sub-lists has a single point ([isFlat] raises at line 143 on this host,
    before line 146 reads [distance] of [null]). *)
Theorem closestLayer_not_total :
  let q := Some (mkLatLng 1 5) in
  closestLayer Flat.leaflet None Flat.map [LayerGroup 3 []] q
  = Throw TypeError
  /\ closestLayer Flat.leaflet None Flat.map
       [Circle 4 (mkLatLng 0 0) (RadiusNumber 3)] q
     = Throw TypeError
  /\ closestLayer Flat.leaflet None Flat.map [Marker 5 (mkLatLng 0 0)] q
     = Throw TypeError
  /\ closestLayer Flat.leaflet None Flat.map
       [Polyline 6 [Array [Flat.pt 0 0];
                    Array [Flat.pt 1 1; Flat.pt 2 2]]] q
     = Throw TypeError.
Proof. repeat split; reflexivity. Qed.

(** ** The tolerance test of the snap resolver *)

(** [closestLayerSnap] answers [null] exactly when the collection search
    answers [null] or a result farther than the tolerance. *)
Lemma closestLayerSnap_null_iff (leaflet : Leaflet) (this : receiver)
    (map : LMap) (layers : list Layer) (latlng : option LatLng)
    (tolerance : float) (withVertices : bool) :
  closestLayerSnap leaflet this map layers latlng tolerance withVertices
  = Return None
  <-> closestLayer leaflet None map layers latlng = Return None
      \/ exists r, closestLayer leaflet None map layers latlng = Return (Some r)
                   /\ (tolerance <? r_distance r)%float = true.
Proof.
  unfold closestLayerSnap.
  destruct (closestLayer leaflet None map layers latlng) as [[r|]|e];
    cbn [bind].
  - destruct (tolerance <? r_distance r)%float eqn:Hd.
    + split; [intros _; right; exists r; auto | reflexivity].
    + split.
      * intros H. exfalso.
        destruct (withVertices && has_getLatLngs (r_layer r)).
        -- destruct (closest leaflet None map (SLayer (r_layer r))
                       (r_latlng r) true) as [[c|]|e]; cbn [bind] in H;
             try discriminate.
           destruct (c_distance c <? tolerance)%float; [|discriminate].
           destruct (this_distance this map (Some (c_latlng c)) latlng);
             discriminate.
        -- discriminate.
      * intros [H|[r' [H1 H2]]]; [discriminate|].
        injection H1 as <-. congruence.
  - split; [auto | reflexivity].
  - split; [discriminate|]. intros [H|[r [H _]]]; discriminate.
Qed.

(** ** The proximity handler *)

Lemma World_eta (w : World) :
  mkWorld (mkHandler (_map (handler w)) (_layers (handler w))
             (_previous (handler w))) (fired w) = w.
Proof. destruct w as [[m l p] f]. reflexivity. Qed.

(** [addLayer] appends the leaves of the layer. *)
Lemma addLayer_leaves (layer : Layer) :
  forall w : World,
    addLayer layer w
    = (withLayers w (_layers (handler w) ++ leaves layer), Return tt).
Proof.
  induction layer as [id l|id l|id c r|id p|id|id layers IH]
    using Layer_nested_ind; intros w; try reflexivity.
  cbn [addLayer leaves]. revert w.
  induction IH as [|x rest Hx _ IHrest]; intros w; cbn [eachLayer flat_map].
  - unfold ret, withLayers. rewrite app_nil_r, World_eta. reflexivity.
  - unfold mbind at 1. rewrite Hx, IHrest. unfold withLayers. cbn.
    rewrite app_assoc. reflexivity.
Qed.

(** [removeLayer] takes one registration away for each leaf of the layer, in
    order, and clears [_previous]. *)
Lemma removeLayer_leaves (layer : Layer) :
  forall w : World,
    removeLayer layer w
    = (withPrevious
         (withLayers w (fold_left unregisterOne (leaves layer)
                          (_layers (handler w)))) None,
       Return tt).
Proof.
  induction layer as [id l|id l|id c r|id p|id|id layers IH]
    using Layer_nested_ind; intros w;
    try (cbn; unfold mbind, this_, unregisterOne; cbn;
         destruct (indexOf (_layers (handler w)) _); reflexivity).
  cbn [removeLayer leaves]. unfold mbind at 1.
  assert (H : forall w,
             eachLayer removeLayer layers w
             = (match layers with
                | [] => w
                | _ :: _ =>
                    withPrevious
                      (withLayers w (fold_left unregisterOne
                                       (flat_map leaves layers)
                                       (_layers (handler w)))) None
                end, Return tt)).
  { clear w. induction IH as [|x rest Hx _ IHrest]; intros w;
      cbn [eachLayer flat_map]; [reflexivity|].
    unfold mbind at 1. rewrite Hx, IHrest. rewrite fold_left_app.
    destruct rest; reflexivity. }
  rewrite H. destruct layers; reflexivity.
Qed.

(** C9: for every shape and every session state, [removeLayer] completes
    with [_previous] reset to [null], whether or not the removed shape was
    the tracked one, and fires no event: the events fired so far are the
    same before and after, and only [_layers] may differ. *)
Theorem removeLayer_resets_previous_silently :
  forall (layer : Layer) (w : World),
    exists layers' : list Layer,
      removeLayer layer w
      = (mkWorld (mkHandler (_map (handler w)) layers' None) (fired w),
         Return tt).
Proof.
  intros layer w. rewrite removeLayer_leaves. eexists. reflexivity.
Qed.

Lemma Forall_splice1 (P : Layer -> Prop) (layers : list Layer) :
  Forall P layers -> forall index, Forall P (splice1 layers index).
Proof.
  induction 1 as [|l rest Hl Hrest IH]; intros [|i]; cbn; auto.
Qed.

Lemma Forall_unregisterOne (P : Layer -> Prop) (layers : list Layer)
    (layer : Layer) :
  Forall P layers -> Forall P (unregisterOne layers layer).
Proof.
  intros H. unfold unregisterOne.
  destruct (indexOf layers layer); [apply Forall_splice1|]; assumption.
Qed.

Lemma leaves_not_group (layer : Layer) :
  Forall (fun l => has_eachLayer l = false) (leaves layer).
Proof.
  induction layer as [id l|id l|id c r|id p|id|id layers IH]
    using Layer_nested_ind; cbn; try (constructor; [reflexivity|constructor]).
  induction IH as [|x rest Hx _ IHrest]; cbn; [constructor|].
  apply Forall_app. split; assumption.
Qed.

(** The pointer handlers leave [_layers] as it is. *)
Lemma onMouseMove_layers (leaflet : Leaflet) (e : MouseEvent) (w : World) :
  _layers (handler (fst (_onMouseMove leaflet e w))) = _layers (handler w).
Proof.
  unfold _onMouseMove. destruct (e_latlng e) as [q|]; [|reflexivity].
  unfold mbind, this_, lift.
  destruct (getClosest leaflet (handler w) (Some q)) as [[c|]|ex];
    [| |reflexivity].
  - destruct (_previous (handler w)) as [p|]; [|reflexivity].
    destruct (negb (stamp (r_layer p) =? stamp (r_layer c))); reflexivity.
  - destruct (_previous (handler w)) as [p|]; reflexivity.
Qed.

Lemma onMouseClick_layers (leaflet : Leaflet) (e : MouseEvent) (w : World) :
  _layers (handler (fst (_onMouseClick leaflet e w))) = _layers (handler w).
Proof.
  unfold _onMouseClick, mbind, this_, lift.
  destruct (getClosest leaflet (handler w) (e_latlng e)) as [[c|]|ex];
    reflexivity.
Qed.

Lemma after_keeps_leaves (leaflet : Leaflet) (c : Call) (w : World) :
  Forall (fun l => has_eachLayer l = false) (_layers (handler w)) ->
  Forall (fun l => has_eachLayer l = false)
    (_layers (handler (after leaflet c w))).
Proof.
  intros H. unfold after. destruct c as [l|l|e|e]; cbn [call].
  - rewrite addLayer_leaves. cbn. apply Forall_app. split; [assumption|].
    apply leaves_not_group.
  - rewrite removeLayer_leaves. cbn.
    generalize (leaves l). intros xs. revert H.
    generalize (_layers (handler w)).
    induction xs as [|x xs IH]; intros ls H; cbn; [assumption|].
    apply IH, Forall_unregisterOne, H.
  - rewrite onMouseMove_layers. assumption.
  - rewrite onMouseClick_layers. assumption.
Qed.

Lemma registrations_splice1 (id : nat) (layers : list Layer) (x : Layer) :
  forall index,
    indexOf layers x = Some index ->
    registrations id (splice1 layers index)
    = registrations id layers - (if stamp x =? id then 1 else 0).
Proof.
  unfold registrations.
  induction layers as [|l rest IH]; intros index H; cbn in H; [discriminate|].
  destruct (stamp l =? stamp x) eqn:E.
  - injection H as <-. cbn. apply Nat.eqb_eq in E. rewrite E.
    destruct (stamp x =? id); cbn; lia.
  - destruct (indexOf rest x) as [i|] eqn:Hi; [|discriminate].
    injection H as <-. cbn. specialize (IH i eq_refl).
    destruct (stamp l =? id) eqn:El; cbn; rewrite IH; [|reflexivity].
    destruct (stamp x =? id) eqn:Ex; [|lia].
    apply Nat.eqb_eq in El, Ex. apply Nat.eqb_neq in E. congruence.
Qed.

Lemma registrations_absent (id : nat) (layers : list Layer) (x : Layer) :
  indexOf layers x = None -> stamp x = id -> registrations id layers = 0.
Proof.
  unfold registrations. intros H <-.
  induction layers as [|l rest IH]; cbn in *; [reflexivity|].
  destruct (stamp l =? stamp x); [discriminate|].
  destruct (indexOf rest x); [discriminate|]. auto.
Qed.

Lemma registrations_unregisterOne (id : nat) (layers : list Layer)
    (x : Layer) :
  registrations id (unregisterOne layers x)
  = registrations id layers - (if stamp x =? id then 1 else 0).
Proof.
  unfold unregisterOne. destruct (indexOf layers x) as [i|] eqn:H.
  - apply registrations_splice1, H.
  - destruct (stamp x =? id) eqn:E; [|lia].
    apply Nat.eqb_eq in E. rewrite (registrations_absent layers x H E).
    reflexivity.
Qed.

Lemma registrations_unregister_all (id : nat) (xs : list Layer) :
  forall layers,
    registrations id (fold_left unregisterOne xs layers)
    = registrations id layers - registrations id xs.
Proof.
  induction xs as [|x xs IH]; intros layers; cbn [fold_left].
  - unfold registrations at 3. cbn. lia.
  - rewrite IH, registrations_unregisterOne.
    unfold registrations at 4. cbn [filter].
    destruct (stamp x =? id); cbn [length];
      fold (registrations id xs); lia.
Qed.

(** C8, as the code has it: in every state a session reaches, no entry of
    [_layers] is a group.  [addLayer] expands a group into its leaves and
    appends them, without a test for a layer that is there already;
    [removeLayer] goes through the same leaves, in order, and takes away
    the first registration of each that it finds: for every object, its
    registrations after the call are those before, less its occurrences
    among the leaves of the removed layer (and none when that is more);
    removing a layer right after adding it restores the registrations of
    every object. *)
Theorem registered_layers_are_leaves :
  forall (leaflet : Leaflet) (map : LMap),
    (forall calls : list Call,
        Forall (fun l => has_eachLayer l = false)
          (_layers (handler (session leaflet map calls))))
    /\ (forall (layer : Layer) (w : World),
          _layers (handler (after leaflet (CallAddLayer layer) w))
          = _layers (handler w) ++ leaves layer)
    /\ (forall (layer : Layer) (w : World),
          _layers (handler (after leaflet (CallRemoveLayer layer) w))
          = fold_left unregisterOne (leaves layer) (_layers (handler w)))
    /\ (forall (layer : Layer) (w : World) (id : nat),
          registrations id
            (_layers (handler (after leaflet (CallRemoveLayer layer) w)))
          = registrations id (_layers (handler w))
            - registrations id (leaves layer))
    /\ (forall (layer : Layer) (w : World) (id : nat),
          registrations id
            (_layers (handler (after leaflet (CallRemoveLayer layer)
                                 (after leaflet (CallAddLayer layer) w))))
          = registrations id (_layers (handler w))).
Proof.
  intros leaflet map. repeat split.
  - intros calls. unfold session.
    assert (H : Forall (fun l => has_eachLayer l = false)
                  (_layers (handler (initialize map)))) by constructor.
    revert H. generalize (initialize map).
    induction calls as [|c calls IH]; intros w H; cbn [fold_left];
      [assumption|].
    apply IH, after_keeps_leaves, H.
  - intros layer w. unfold after. cbn [call].
    rewrite addLayer_leaves. reflexivity.
  - intros layer w. unfold after. cbn [call].
    rewrite removeLayer_leaves. reflexivity.
  - intros layer w id. unfold after. cbn [call].
    rewrite removeLayer_leaves. cbn. apply registrations_unregister_all.
  - intros layer w id. unfold after. cbn [call].
    rewrite addLayer_leaves, removeLayer_leaves.
    unfold withPrevious, withLayers. cbn [fst handler _layers].
    rewrite registrations_unregister_all. unfold registrations.
    rewrite filter_app, length_app. lia.
Qed.

(** C8 as the specification states it fails: a layer registered on its own
    and again as a member of a group is held twice; removing the group takes
    one of the two registrations away, so a leaf of the removed group is
    still registered. *)
Lemma removeLayer_group_counterexample :
  let a := Marker 1 (mkLatLng 0 0) in
  let b := Marker 2 (mkLatLng 5 5) in
  let group := LayerGroup 3 [a; b] in
  let w :=
    session Flat.leaflet Flat.map
      [CallAddLayer a; CallAddLayer group; CallRemoveLayer group] in
  In a (leaves group) /\ _layers (handler w) = [a].
Proof. split; [left; reflexivity | reflexivity]. Qed.

(** ** C2: a pointer move whose query fails *)

(** C2, as the code has it: for every pointer move, a failure raised by the
    proximity query is not caught: [_onMouseMove] raises it to its caller.
    No event is fired and the handler, [_previous] included, is left as it
    was, so the next pointer move is processed from the same state. *)
Theorem onMouseMove_failure_propagates :
  forall (leaflet : Leaflet) (w : World) (e : MouseEvent) (q : LatLng)
         (ex : exn),
    e_latlng e = Some q ->
    getClosest leaflet (handler w) (Some q) = Throw ex ->
    _onMouseMove leaflet e w = (w, Throw ex)
    /\ forall e' : MouseEvent,
         call leaflet (CallMouseMove e') (after leaflet (CallMouseMove e) w)
         = _onMouseMove leaflet e' w.
Proof.
  intros leaflet w e q ex He Hq.
  assert (H : _onMouseMove leaflet e w = (w, Throw ex)).
  { unfold _onMouseMove. rewrite He. unfold mbind, this_, lift.
    rewrite Hq. reflexivity. }
  split; [exact H|]. intros e'. unfold after. cbn [call]. rewrite H.
  reflexivity.
Qed.

Lemma onMouseMove_failure_propagates_witness :
  let circle := Circle 2 (mkLatLng 50 50) (RadiusNumber 3) in
  let w := session Flat.leaflet Flat.map [CallAddLayer circle] in
  let e := mkMouseEvent (Some (mkLatLng 50 50)) mousemove in
  _onMouseMove Flat.leaflet e w = (w, Throw DegenerateInputError).
Proof.
  intros circle w e.
  apply (onMouseMove_failure_propagates Flat.leaflet w e
           (q := mkLatLng 50 50) (ex := DegenerateInputError)); reflexivity.
Defined.

(** C2 as the specification states it fails: with a circle registered and
    the pointer on its centre, the failure of the query is raised by the
    handler; the move is not handled as a miss, which completes normally. *)
Lemma onMouseMove_failure_counterexample :
  let circle := Circle 2 (mkLatLng 50 50) (RadiusNumber 3) in
  let w := session Flat.leaflet Flat.map [CallAddLayer circle] in
  let e := mkMouseEvent (Some (mkLatLng 50 50)) mousemove in
  getClosest Flat.leaflet (handler w) (e_latlng e)
  = Throw DegenerateInputError
  /\ snd (_onMouseMove Flat.leaflet e w) = Throw DegenerateInputError
  /\ snd (_onMouseMove Flat.leaflet e w) <> Return tt.
Proof. split; [reflexivity | split; [reflexivity | discriminate]]. Qed.

(** ** The copy of line 128 on the store *)

Lemma nth_error_middle (A : Type) (pre post : list A) (x : A) :
  nth_error (pre ++ x :: post) (length pre) = Some x.
Proof.
  rewrite nth_error_app2 by lia. rewrite Nat.sub_diag. reflexivity.
Qed.

Lemma layoutAll_cons (base : nat) (v : jsval) (l : list jsval) :
  layoutAll layout base (v :: l)
  = (fst (layout base v)
       ++ fst (layoutAll layout (base + length (fst (layout base v))) l),
     snd (layout base v)
       :: snd (layoutAll layout (base + length (fst (layout base v))) l)).
Proof.
  cbn [layoutAll]. destruct (layout base v) as [b c]. cbn [fst snd].
  destruct (layoutAll layout (base + length b) l) as [bs cs]. reflexivity.
Qed.

Lemma layout_array (base : nat) (l : list jsval) :
  layout base (Array l)
  = (fst (layoutAll layout base l) ++ [snd (layoutAll layout base l)],
     CRef (base + length (fst (layoutAll layout base l)))).
Proof.
  cbn [layout]. destruct (layoutAll layout base l) as [bs cs]. reflexivity.
Qed.

Lemma reads_back_all (l : list jsval) :
  Forall reads_back l ->
  forall (pre post : store) (fuel : nat),
    Forall (fun v => depth v <= fuel) l ->
    mapM (readValue fuel
            (pre ++ fst (layoutAll layout (length pre) l) ++ post))
      (snd (layoutAll layout (length pre) l))
    = Return l.
Proof.
  induction 1 as [|v l Hv _ IH]; intros pre post fuel Hd; [reflexivity|].
  inversion Hd as [|? ? Hdv Hdl]; subst.
  rewrite layoutAll_cons. cbn [fst snd mapM].
  set (b := fst (layout (length pre) v)).
  set (bs := fst (layoutAll layout (length pre + length b) l)).
  replace (pre ++ (b ++ bs) ++ post) with (pre ++ b ++ (bs ++ post))
    by (rewrite <- !app_assoc; reflexivity).
  pose proof (Hv pre (bs ++ post) fuel Hdv) as Hv'. fold b in Hv'.
  rewrite Hv'. cbn [bind].
  specialize (IH (pre ++ b) post fuel Hdl).
  rewrite length_app in IH. fold bs in IH.
  replace (pre ++ b ++ bs ++ post) with ((pre ++ b) ++ bs ++ post)
    by (rewrite <- !app_assoc; reflexivity).
  rewrite IH. reflexivity.
Qed.

Lemma max_depth_elements (l : list jsval) (n : nat) :
  fold_right (fun x m => Nat.max (depth x) m) 0 l <= n ->
  Forall (fun v => depth v <= n) l.
Proof.
  induction l as [|v l IH]; cbn [fold_right]; intros H; constructor.
  - lia.
  - apply IH. lia.
Qed.

Lemma layout_reads_back (v : jsval) : reads_back v.
Proof.
  induction v as [|p|a b|l IH] using jsval_nested_ind;
    intros pre post fuel Hd.
  - destruct fuel; reflexivity.
  - destruct fuel; reflexivity.
  - destruct fuel; reflexivity.
  - destruct fuel as [|fuel]; [inversion Hd|].
    cbn [depth] in Hd. apply Nat.succ_le_mono in Hd.
    apply max_depth_elements in Hd.
    rewrite (layout_array (length pre) l). cbn [fst snd].
    set (bs := fst (layoutAll layout (length pre) l)).
    set (cs := snd (layoutAll layout (length pre) l)).
    pose proof (reads_back_all IH pre (cs :: post) Hd) as H.
    fold bs cs in H.
    replace (pre ++ (bs ++ [cs]) ++ post) with (pre ++ bs ++ cs :: post)
      by (rewrite <- !app_assoc; reflexivity).
    cbn [readValue].
    replace (nth_error (pre ++ bs ++ cs :: post) (length pre + length bs))
      with (Some cs)
      by (rewrite app_assoc, <- length_app, nth_error_middle; reflexivity).
    rewrite H. reflexivity.
Qed.

(** A value is no deeper than the number of arrays it is laid out in. *)
Lemma depth_le_layout (v : jsval) :
  forall base, depth v <= length (fst (layout base v)).
Proof.
  induction v as [|p|a b|l IH] using jsval_nested_ind; intros base;
    [cbn; lia | cbn; lia | cbn; lia |].
  rewrite layout_array. cbn [fst depth]. rewrite length_app. cbn [length].
  enough (fold_right (fun x m => Nat.max (depth x) m) 0 l
          <= length (fst (layoutAll layout base l))) by lia.
  revert base. induction IH as [|v l Hv _ IHl]; intros base;
    [cbn; lia|].
  rewrite layoutAll_cons. cbn [fst fold_right]. rewrite length_app.
  specialize (Hv base).
  specialize (IHl (base + length (fst (layout base v)))). lia.
Qed.

Lemma mapM_ext_Return (A B : Type) (f g : A -> completion B) (l : list A) :
  (forall x y, f x = Return y -> g x = Return y) ->
  forall r, mapM f l = Return r -> mapM g l = Return r.
Proof.
  intros Hfg. induction l as [|x l IH]; intros r H; [exact H|].
  cbn [mapM] in *. destruct (f x) as [y|e] eqn:Hx; [|discriminate].
  rewrite (Hfg x y Hx). cbn [bind] in *.
  destruct (mapM f l) as [ys|e]; [|discriminate].
  rewrite (IH ys eq_refl). exact H.
Qed.

(** More fuel and more arrays after the store do not change what is read. *)
Lemma readValue_mono (fuel : nat) :
  forall (s : store) (c : cell) (v : jsval),
    readValue fuel s c = Return v ->
    forall (fuel' : nat) (ext : store),
      fuel <= fuel' -> readValue fuel' (s ++ ext) c = Return v.
Proof.
  induction fuel as [|fuel IH]; intros s c v H fuel' ext Hle.
  - destruct c; try discriminate; destruct fuel'; exact H.
  - destruct c as [| | |a]; [destruct fuel'; exact H ..|].
    destruct fuel' as [|fuel']; [lia|]. cbn [readValue] in *.
    destruct (nth_error s a) as [arr|] eqn:Ha; [|discriminate].
    rewrite nth_error_app1 by (apply nth_error_Some; congruence).
    rewrite Ha.
    destruct (mapM (readValue fuel s) arr) as [l|e] eqn:Hl; [|discriminate].
    rewrite (mapM_ext_Return (readValue fuel s)
               (readValue fuel' (s ++ ext)) arr) with (r := l);
      [exact H | | exact Hl].
    intros x y Hx. apply IH; [exact Hx | lia].
Qed.

(** * The searches and the sessions *)

Unset Implicit Arguments.

(** ** The order of binary64 numbers *)

Section FloatOrder.

Open Scope float_scope.

Ltac key_case :=
  cbn;
  first
    [ split; [discriminate | intros (? & ? & ?); try discriminate; lia]
    | split; [intros _; repeat split; lia | reflexivity] ].

Lemma SFltb_key (x y : spec_float) :
  SFltb x y = true
  <-> SFnan x = false /\ SFnan y = false /\ key_lt (SFkey x) (SFkey y).
Proof.
  unfold SFltb, key_lt.
  destruct x as [sx|sx| |sx mx ex], y as [sy|sy| |sy my ey]; cbn;
    try (destruct sx); try (destruct sy); try key_case.
  all: change (Pos.compare_cont Eq mx my) with (Pos.compare mx my).
  all: destruct (Z.compare_spec ex ey), (Pos.compare_spec mx my); key_case.
Qed.

Lemma ltb_key (x y : float) :
  (x <? y) = true
  <-> SFnan (Prim2SF x) = false /\ SFnan (Prim2SF y) = false
      /\ key_lt (SFkey (Prim2SF x)) (SFkey (Prim2SF y)).
Proof. rewrite ltb_spec. apply SFltb_key. Qed.

Lemma ltb_irrefl (x : float) : (x <? x) = false.
Proof.
  destruct (x <? x) eqn:E; [|reflexivity].
  apply ltb_key in E. unfold key_lt in E. lia.
Qed.

Lemma ltb_trans (x y z : float) :
  (x <? y) = true -> (y <? z) = true -> (x <? z) = true.
Proof.
  rewrite !ltb_key. unfold key_lt. intros (? & ? & ?) (? & ? & ?).
  repeat split; try assumption; lia.
Qed.

(** What is not below the least distance so far is not below a distance
    that replaces it, with either comparison. *)
Lemma ltb_keeps_floor (d m x : float) :
  (d <? m) = true -> (x <? m) = false -> (x <? d) = false.
Proof.
  intros Hd Hx. destruct (x <? d) eqn:E; [|reflexivity].
  rewrite (ltb_trans x d m E Hd) in Hx. discriminate.
Qed.

End FloatOrder.

Section SoundResults.

Variable leaflet : Leaflet.
Variable map : LMap.
Variable latlng : option LatLng.

Lemma sound_best_below_infinity (P : Layer -> Prop) (m d : float)
    (r : option SnapResult) :
  sound_best P m r -> (d <? m)%float = true -> (d <? infinity)%float = true.
Proof.
  intros [[-> _]|[x [_ [-> [_ [_ Hx]]]]]] Hd; [exact Hd|].
  apply (ltb_trans d (r_distance x) infinity Hd Hx).
Qed.

(** Lines 215-222 on a fresh position and distance. *)
Lemma keepCloser_fresh (P : Layer -> Prop) (l : Layer) (st : Locals)
    (p : LatLng) (d : float) :
  P l -> sound_locals P st ->
  sound_locals P
    (keepCloser l (mkLocals (mindist st) (result st) (Some p) d)).
Proof.
  intros Hl [_ Hbest]. unfold keepCloser, sound_locals.
  cbn [dist mindist result ll].
  destruct (d <? mindist st)%float eqn:Hd; cbn [dist mindist result ll].
  - split; [apply ltb_irrefl|]. right.
    eexists. split; [reflexivity|]. split; [reflexivity|].
    split; [exact Hl|]. split; [discriminate|].
    apply (sound_best_below_infinity P (mindist st) d (result st) Hbest Hd).
  - split; assumption.
Qed.

(** Lines 215-222 when [closest] gave [null]: the distance of an earlier
    layer is compared again, and is not below [mindist]. *)
Lemma keepCloser_stale (P : Layer -> Prop) (l : Layer) (st : Locals) :
  sound_locals P st ->
  sound_locals P
    (keepCloser l (mkLocals (mindist st) (result st) None (dist st))).
Proof.
  intros [Hd Hbest]. unfold keepCloser, sound_locals.
  cbn [dist mindist result ll]. rewrite Hd. cbn [dist mindist result ll].
  split; assumption.
Qed.

Lemma forLayers_sound (P : Layer -> Prop)
    (body : Layer -> Locals -> completion Locals) (layers : list Layer) :
  Forall
    (fun l =>
       forall st st',
         sound_locals P st -> body l st = Return st' -> sound_locals P st')
    layers ->
  forall st st',
    sound_locals P st -> forLayers body layers st = Return st' ->
    sound_locals P st'.
Proof.
  induction 1 as [|l rest Hl _ IH]; intros st st' Hst H; cbn [forLayers] in H.
  - injection H as <-. exact Hst.
  - destruct (body l st) as [st1|e] eqn:E; [|discriminate].
    cbn [bind] in H. apply (IH st1 st' (Hl st st1 Hst E) H).
Qed.

Lemma closestLayerBody_sound (l : Layer) :
  forall (this : receiver) (P : Layer -> Prop) (st st' : Locals),
    (forall x, In x (leaves l) -> P x) ->
    sound_locals P st ->
    closestLayerBody leaflet this map latlng l st = Return st' ->
    sound_locals P st'.
Proof.
  induction l as [id ls|id ls|id c r|id p|id|id children IH]
    using Layer_nested_ind; intros this P st st' HP Hst H;
    cbn [closestLayerBody] in H.
  - destruct (closest leaflet None map (SLayer (Polyline id ls)) latlng false)
      as [[c|]|e]; cbn [bind] in H; try discriminate; injection H as <-.
    + apply keepCloser_fresh; [apply HP; left; reflexivity | exact Hst].
    + apply keepCloser_stale, Hst.
  - destruct (closest leaflet None map (SLayer (Polygon id ls)) latlng false)
      as [[c|]|e]; cbn [bind] in H; try discriminate; injection H as <-.
    + apply keepCloser_fresh; [apply HP; left; reflexivity | exact Hst].
    + apply keepCloser_stale, Hst.
  - destruct (closestOnCircle (Circle id c r) latlng) as [p|e];
      cbn [bind] in H; [|discriminate].
    destruct (this_distance this map latlng (Some p)) as [d|e];
      cbn [bind] in H; [|discriminate].
    injection H as <-.
    apply keepCloser_fresh; [apply HP; left; reflexivity | exact Hst].
  - destruct (this_distance this map latlng (Some p)) as [d|e];
      cbn [bind] in H; [|discriminate].
    injection H as <-.
    apply keepCloser_fresh; [apply HP; left; reflexivity | exact Hst].
  - cbn [closest bind] in H. injection H as <-.
    apply keepCloser_stale, Hst.
  - destruct (forLayers (closestLayerBody leaflet None map latlng) children
                locals0) as [sub|e] eqn:Hsub; cbn [bind] in H;
      [|discriminate].
    assert (Hsound : sound_locals P sub).
    { apply (forLayers_sound P (closestLayerBody leaflet None map latlng)
               children) with (st := locals0); [| |exact Hsub].
      - clear Hsub H. cbn [leaves] in HP.
        induction IH as [|x rest Hx _ IHrest]; constructor.
        + intros s s' Hs Hb. apply (Hx None P s s'); [|exact Hs|exact Hb].
          intros y Hy. apply HP. cbn [flat_map]. apply in_or_app.
          left. exact Hy.
        + apply IHrest. intros y Hy. apply HP. cbn [flat_map].
          apply in_or_app. right. exact Hy.
      - split; [apply ltb_irrefl | left; split; reflexivity]. }
    destruct (result sub) as [subResult|] eqn:Hres; [|discriminate].
    destruct Hsound as [_ [[_ Hnone]|[x [Hx [_ Hgood]]]]];
      [rewrite Hres in Hnone; discriminate|].
    rewrite Hres in Hx. injection Hx as <-.
    destruct Hst as [Hd Hbest].
    destruct (r_distance subResult <? mindist st)%float eqn:Hlt;
      injection H as <-.
    + split; cbn [dist mindist result].
      * apply (ltb_keeps_floor (r_distance subResult) (mindist st) (dist st)
                 Hlt Hd).
      * right. exists subResult. repeat split; apply Hgood.
    + split; assumption.
Qed.

Lemma closestLayer_sound (this : receiver) (layers : list Layer)
    (r : SnapResult) :
  closestLayer leaflet this map layers latlng = Return (Some r) ->
  sound_result (fun l => In l (flat_map leaves layers)) r.
Proof.
  unfold closestLayer. intros H.
  destruct (forLayers (closestLayerBody leaflet this map latlng) layers
              locals0) as [st|e] eqn:Hst; cbn [bind] in H; [|discriminate].
  injection H as Hr.
  assert (Hsound : sound_locals (fun l => In l (flat_map leaves layers)) st).
  { apply (forLayers_sound _ (closestLayerBody leaflet this map latlng)
             layers) with (st := locals0); [| |exact Hst].
    - apply Forall_forall. intros l Hl s s' Hs Hb.
      apply (closestLayerBody_sound l this _ s s'); [|exact Hs|exact Hb].
      intros x Hx. apply in_flat_map. exists l. split; assumption.
    - split; [apply ltb_irrefl | left; split; reflexivity]. }
  destruct Hsound as [_ [[_ Hnone]|[x [Hx [_ Hgood]]]]];
    [rewrite Hr in Hnone; discriminate|].
  rewrite Hr in Hx. injection Hx as <-. exact Hgood.
Qed.

End SoundResults.

(** X4: for every list of layers, receiver and position, a result of
    [closestLayer] names a layer of the list that is not a group (a leaf of
    the list, found through its groups), carries a position that is not
    [null], although line 217 stores [ll] without a test, and a distance
    below Infinity. *)
Theorem closestLayer_result_is_a_leaf_with_a_position :
  forall (leaflet : Leaflet) (this : receiver) (map : LMap)
         (layers : list Layer) (latlng : option LatLng) (r : SnapResult),
    closestLayer leaflet this map layers latlng = Return (Some r) ->
    In (r_layer r) (flat_map leaves layers)
    /\ has_eachLayer (r_layer r) = false
    /\ r_latlng r <> None
    /\ (r_distance r <? infinity)%float = true.
Proof.
  intros leaflet this map layers latlng r H.
  destruct (closestLayer_sound leaflet map latlng this layers r H)
    as [Hin [Hll Hd]].
  split; [exact Hin|]. split; [|split; assumption].
  apply in_flat_map in Hin. destruct Hin as [l [_ Hl]].
  pose proof (leaves_not_group l) as Hng.
  rewrite Forall_forall in Hng. apply Hng, Hl.
Qed.

Lemma closestLayer_result_is_a_leaf_with_a_position_witness :
  let marker := Marker 1 (mkLatLng 0 5) in
  let r := mkSnapResult marker (Some (mkLatLng 0 5)) 1 in
  In (r_layer r) (flat_map leaves [GridLayer 8; marker])
  /\ has_eachLayer (r_layer r) = false
  /\ r_latlng r <> None
  /\ (r_distance r <? infinity)%float = true.
Proof.
  intros marker r.
  apply (closestLayer_result_is_a_leaf_with_a_position Flat.leaflet
           (Some Flat.distance) Flat.map [GridLayer 8; marker]
           (Some (mkLatLng 1 5)) r).
  reflexivity.
Defined.

Lemma forLayers_throws (body : Layer -> Locals -> completion Locals)
    (pre post : list Layer) (l : Layer) :
  (forall st, exists e, body l st = Throw e) ->
  forall st, exists e, forLayers body (pre ++ l :: post) st = Throw e.
Proof.
  intros Hl st. rewrite forLayers_app.
  destruct (forLayers body pre st) as [st1|e]; cbn [bind forLayers].
  - destruct (Hl st1) as [e He]. exists e. rewrite He. reflexivity.
  - exists e. reflexivity.
Qed.

Lemma closestLayer_throws (leaflet : Leaflet) (this : receiver) (map : LMap)
    (latlng : option LatLng) (pre post : list Layer) (l : Layer) :
  (forall st,
      exists e, closestLayerBody leaflet this map latlng l st = Throw e) ->
  exists e,
    closestLayer leaflet this map (pre ++ l :: post) latlng = Throw e.
Proof.
  intros Hl. unfold closestLayer.
  destruct (forLayers_throws _ pre post l Hl locals0) as [e He].
  exists e. rewrite He. reflexivity.
Qed.

Lemma closestLayerBody_needs_receiver (leaflet : Leaflet) (map : LMap)
    (latlng : option LatLng) (l : Layer) :
  needs_receiver l = true ->
  forall st,
    exists e, closestLayerBody leaflet None map latlng l st = Throw e.
Proof.
  intros Hl st. destruct l; try discriminate; cbn [closestLayerBody].
  - destruct (closestOnCircle _ latlng) as [p|e]; cbn [bind];
      eexists; reflexivity.
  - eexists. reflexivity.
Qed.

(** X5: for every list of layers, [closestLayer] raises as soon as the list
    holds a group in which the search finds nothing (an empty group, for
    one): line 200 reads [distance] of the [null] sub-result.  Called
    without a receiver, it raises as soon as the list holds a circle or a
    marker: lines 207 and 210 call [this.distance]. *)
Theorem closestLayer_raises_on_barren_group_and_without_receiver :
  forall (leaflet : Leaflet) (map : LMap) (latlng : option LatLng)
         (pre post : list Layer),
    (forall (this : receiver) (id : nat) (children : list Layer),
        closestLayer leaflet None map children latlng = Return None ->
        exists e,
          closestLayer leaflet this map
            (pre ++ LayerGroup id children :: post) latlng = Throw e)
    /\ (forall l : Layer,
           needs_receiver l = true ->
           exists e,
             closestLayer leaflet None map (pre ++ l :: post) latlng
             = Throw e).
Proof.
  intros leaflet map latlng pre post. split.
  - intros this id children H. apply closestLayer_throws. intros st.
    cbn [closestLayerBody]. unfold closestLayer in H.
    destruct (forLayers (closestLayerBody leaflet None map latlng) children
                locals0) as [sub|e]; cbn [bind] in *; [|discriminate].
    injection H as ->. exists TypeError. reflexivity.
  - intros l Hl. apply closestLayer_throws.
    apply closestLayerBody_needs_receiver, Hl.
Qed.

Lemma closestLayer_raises_on_barren_group_and_without_receiver_witness :
  let line := Polyline 1 [Flat.pt 0 0; Flat.pt 10 0] in
  (exists e,
      closestLayer Flat.leaflet (Some Flat.distance) Flat.map
        ([line] ++ LayerGroup 3 [GridLayer 4] :: []) (Some (mkLatLng 1 5))
      = Throw e)
  /\ (exists e,
         closestLayer Flat.leaflet None Flat.map
           ([line] ++ Marker 5 (mkLatLng 0 0) :: [line])
           (Some (mkLatLng 1 5))
         = Throw e).
Proof.
  intros line.
  destruct (closestLayer_raises_on_barren_group_and_without_receiver
              Flat.leaflet Flat.map (Some (mkLatLng 1 5)) [line] [])
    as [Hgroup _].
  destruct (closestLayer_raises_on_barren_group_and_without_receiver
              Flat.leaflet Flat.map (Some (mkLatLng 1 5)) [line] [line])
    as [_ Hmarker].
  split.
  - apply (Hgroup (Some Flat.distance) 3 [GridLayer 4]). reflexivity.
  - apply (Hmarker (Marker 5 (mkLatLng 0 0))). reflexivity.
Defined.

(** ** On a host without [Util.isArray] *)

Section WithoutIsArray.

Variable leaflet : Leaflet.
Hypothesis no_isArray : Util_isArray leaflet = false.

Lemma isFlat_raises (latlngs : list jsval) :
  isFlat leaflet latlngs = Throw TypeError.
Proof. unfold isFlat. rewrite no_isArray. reflexivity. Qed.

(** Lines 143 and 132: a polyline or a polygon is not searched. *)
Lemma closest_line_raises (this : receiver) (map : LMap) (l : Layer)
    (latlng : option LatLng) (vertices : bool) :
  has_getLatLngs l = true ->
  closest leaflet this map (SLayer l) latlng vertices = Throw TypeError.
Proof.
  destruct l; try discriminate; intros _; cbn [closest].
  - unfold closestFlattened. rewrite isFlat_raises. reflexivity.
  - cbn [addLastSegment]. rewrite isFlat_raises. reflexivity.
Qed.

Lemma closestLayerBody_line_raises (this : receiver) (map : LMap)
    (latlng : option LatLng) (l : Layer) (st : Locals) :
  has_getLatLngs l = true ->
  closestLayerBody leaflet this map latlng l st = Throw TypeError.
Proof.
  intros H. destruct l; try discriminate; cbn [closestLayerBody];
    rewrite closest_line_raises by reflexivity; reflexivity.
Qed.

Lemma forLayers_invariant (I : Locals -> Prop)
    (body : Layer -> Locals -> completion Locals) (layers : list Layer) :
  Forall
    (fun l => forall st st', I st -> body l st = Return st' -> I st')
    layers ->
  forall st st', I st -> forLayers body layers st = Return st' -> I st'.
Proof.
  induction 1 as [|l rest Hl _ IH]; intros st st' Hst H; cbn [forLayers] in H.
  - injection H as <-. exact Hst.
  - destruct (body l st) as [st1|e] eqn:E; [|discriminate].
    cbn [bind] in H. apply (IH st1 st' (Hl st st1 Hst E) H).
Qed.

Lemma nothing_found_locals0 : nothing_found locals0.
Proof. repeat split. Qed.

(** Without a receiver, an iteration that completes has found nothing. *)
Lemma closestLayerBody_finds_nothing (map : LMap) (latlng : option LatLng)
    (l : Layer) :
  forall st st' : Locals,
    nothing_found st ->
    closestLayerBody leaflet None map latlng l st = Return st' ->
    nothing_found st'.
Proof.
  induction l as [id ls|id ls|id c r|id p|id|id children IH]
    using Layer_nested_ind; intros st st' Hst H.
  - rewrite closestLayerBody_line_raises in H by reflexivity. discriminate.
  - rewrite closestLayerBody_line_raises in H by reflexivity. discriminate.
  - cbn [closestLayerBody] in H.
    destruct (closestOnCircle (Circle id c r) latlng); discriminate.
  - discriminate.
  - cbn [closestLayerBody closest bind] in H. injection H as <-.
    destruct Hst as (Hr & Hm & Hd). unfold keepCloser.
    cbn [dist mindist result ll]. rewrite Hm, Hd.
    repeat split; assumption.
  - cbn [closestLayerBody] in H.
    destruct (forLayers (closestLayerBody leaflet None map latlng) children
                locals0) as [sub|e] eqn:Hsub; cbn [bind] in H;
      [|discriminate].
    destruct (forLayers_invariant nothing_found _ children IH locals0 sub
                nothing_found_locals0 Hsub) as (Hr & _).
    rewrite Hr in H. discriminate.
Qed.

Lemma forLayers_finds_nothing (map : LMap) (latlng : option LatLng)
    (layers : list Layer) (st st' : Locals) :
  nothing_found st ->
  forLayers (closestLayerBody leaflet None map latlng) layers st
  = Return st' ->
  nothing_found st'.
Proof.
  apply forLayers_invariant. apply Forall_forall. intros l _.
  apply closestLayerBody_finds_nothing.
Qed.

(** Called as the bundle calls it, the collection search returns no
    layer. *)
Lemma closestLayer_finds_nothing (map : LMap) (layers : list Layer)
    (latlng : option LatLng) (r : SnapResult) :
  closestLayer leaflet None map layers latlng <> Return (Some r).
Proof.
  unfold closestLayer. intros H.
  destruct (forLayers (closestLayerBody leaflet None map latlng) layers
              locals0) as [st|e] eqn:Hst; cbn [bind] in H; [|discriminate].
  destruct (forLayers_finds_nothing map latlng layers locals0 st
              nothing_found_locals0 Hst) as (Hr & _).
  congruence.
Qed.

(** Line 200: the search in a group has found nothing, or has failed. *)
Lemma closestLayerBody_group_raises (this : receiver) (map : LMap)
    (latlng : option LatLng) (id : nat) (children : list Layer)
    (st : Locals) :
  exists e,
    closestLayerBody leaflet this map latlng (LayerGroup id children) st
    = Throw e.
Proof.
  cbn [closestLayerBody].
  destruct (forLayers (closestLayerBody leaflet None map latlng) children
              locals0) as [sub|e] eqn:Hsub; cbn [bind].
  - destruct (forLayers_finds_nothing map latlng children locals0 sub
                nothing_found_locals0 Hsub) as (Hr & _).
    rewrite Hr. exists TypeError. reflexivity.
  - exists e. reflexivity.
Qed.

Lemma closestLayerBody_known_raises (map : LMap) (latlng : option LatLng)
    (l : Layer) :
  is_other l = false ->
  forall st,
    exists e, closestLayerBody leaflet None map latlng l st = Throw e.
Proof.
  intros Hl st. destruct l as [id ls|id ls|id c r|id p|id children|id];
    try discriminate.
  - exists TypeError. apply closestLayerBody_line_raises. reflexivity.
  - exists TypeError. apply closestLayerBody_line_raises. reflexivity.
  - apply closestLayerBody_needs_receiver. reflexivity.
  - apply closestLayerBody_needs_receiver. reflexivity.
  - apply closestLayerBody_group_raises.
Qed.

Lemma forLayers_others (map : LMap) (latlng : option LatLng)
    (layers : list Layer) :
  forallb is_other layers = true ->
  forall st,
    nothing_found st ->
    exists st',
      forLayers (closestLayerBody leaflet None map latlng) layers st
      = Return st'
      /\ nothing_found st'.
Proof.
  induction layers as [|l layers IH]; intros Hall st Hst.
  - exists st. split; [reflexivity | exact Hst].
  - cbn [forallb] in Hall. apply andb_prop in Hall.
    destruct Hall as [Hl Hall]. destruct l; try discriminate.
    cbn [forLayers closestLayerBody closest bind].
    apply (IH Hall).
    apply (closestLayerBody_finds_nothing map latlng (GridLayer id) st);
      [exact Hst | reflexivity].
Qed.



End WithoutIsArray.

(** C4, where the code departs from it: on a host without [Util.isArray]
    (Leaflet 2) no tie is resolved, since nothing is compared.  For every
    polyline and polygon, position, receiver and value of [vertices],
    [closest] raises TypeError at line 143 (line 132 for a polygon), where
    [isFlat] calls [leaflet.Util.isArray], before a segment or a vertex is
    looked at; and [closestLayer], called without a receiver as the bundle
    calls it, returns no layer for any list. *)
Theorem closest_raises_before_any_comparison :
  forall leaflet : Leaflet,
    Util_isArray leaflet = false ->
    forall (this : receiver) (map : LMap) (latlng : option LatLng)
           (vertices : bool),
      (forall (id : nat) (latlngs : list jsval),
          closest leaflet this map (SLayer (Polyline id latlngs)) latlng
            vertices = Throw TypeError
          /\ closest leaflet this map (SLayer (Polygon id latlngs)) latlng
               vertices = Throw TypeError)
      /\ (forall (l : Layer) (post : list Layer),
             has_getLatLngs l = true ->
             closestLayer leaflet this map (l :: post) latlng
             = Throw TypeError)
      /\ (forall (layers : list Layer) (r : SnapResult),
             closestLayer leaflet None map layers latlng
             <> Return (Some r)).
Proof.
  intros leaflet H this map latlng vertices. split; [|split].
  - intros id latlngs.
    split; apply (closest_line_raises leaflet H); reflexivity.
  - intros l post Hl. unfold closestLayer. cbn [forLayers].
    rewrite (closestLayerBody_line_raises leaflet H) by exact Hl.
    reflexivity.
  - intros layers r. apply (closestLayer_finds_nothing leaflet H).
Qed.

Lemma closest_raises_before_any_comparison_witness :
  let corner := Polyline 1 [Flat.pt 0 0; Flat.pt 10 0; Flat.pt 10 10] in
  let q := Some (mkLatLng 5 5) in
  closest Flat.leaflet None Flat.map (SLayer corner) q false
  = Throw TypeError
  /\ closestLayer Flat.leaflet None Flat.map
       [corner; Polyline 2 [Flat.pt 0 10; Flat.pt 10 10]] q
     = Throw TypeError.
Proof.
  intros corner q.
  destruct (closest_raises_before_any_comparison Flat.leaflet eq_refl None
              Flat.map q false) as [Hline [Hlist _]].
  split.
  - apply (Hline 1 [Flat.pt 0 0; Flat.pt 10 0; Flat.pt 10 10]).
  - apply Hlist. reflexivity.
Defined.

(** X3: on a host without [Util.isArray], [closestLayer], called without a
    receiver as the bundle calls it, has two outcomes only: it answers
    [null] when every layer of the list is of a kind it does not know (no
    group, circle, marker, polyline or polygon), and it raises as soon as
    one layer is of a kind it knows, wherever that layer stands; it never
    answers with a layer. *)
Theorem closestLayer_without_isArray :
  forall leaflet : Leaflet,
    Util_isArray leaflet = false ->
    forall (map : LMap) (layers : list Layer) (latlng : option LatLng),
      (forallb is_other layers = true ->
       closestLayer leaflet None map layers latlng = Return None)
      /\ (forallb is_other layers = false ->
          exists e, closestLayer leaflet None map layers latlng = Throw e).
Proof.
  intros leaflet H map layers latlng. split.
  - intros Hall. unfold closestLayer.
    destruct (forLayers_others leaflet H map latlng layers Hall locals0
                (nothing_found_locals0)) as [st [Hst (Hr & _)]].
    rewrite Hst. cbn [bind]. rewrite Hr. reflexivity.
  - intros Hsome.
    assert (Hl : exists l, In l layers /\ is_other l = false).
    { induction layers as [|x rest IH]; [discriminate|].
      cbn [forallb] in Hsome. destruct (is_other x) eqn:Hx.
      - destruct (IH Hsome) as [l [Hin Hl]].
        exists l. split; [right; exact Hin | exact Hl].
      - exists x. split; [left; reflexivity | exact Hx]. }
    destruct Hl as [l [Hin Hl]]. apply in_split in Hin.
    destruct Hin as [pre [post ->]].
    apply closestLayer_throws.
    apply (closestLayerBody_known_raises leaflet H map latlng l Hl).
Qed.

Lemma closestLayer_without_isArray_witness :
  let q := Some (mkLatLng 1 5) in
  closestLayer Flat.leaflet None Flat.map [GridLayer 1; GridLayer 2] q
  = Return None
  /\ exists e,
       closestLayer Flat.leaflet None Flat.map
         [GridLayer 1;
          LayerGroup 3 [Polygon 4 [Flat.pt 0 0; Flat.pt 10 0; Flat.pt 0 10]]]
         q
       = Throw e.
Proof.
  intros q. split.
  - apply (closestLayer_without_isArray Flat.leaflet eq_refl Flat.map
             [GridLayer 1; GridLayer 2] q).
    reflexivity.
  - apply (closestLayer_without_isArray Flat.leaflet eq_refl Flat.map
             [GridLayer 1;
              LayerGroup 3
                [Polygon 4 [Flat.pt 0 0; Flat.pt 10 0; Flat.pt 0 10]]] q).
    reflexivity.
Defined.

(** ** The loops, where [isFlat] returns

    What lines 143-177 do on a host that exports [Util.isArray] (Leaflet 1),
    on a flat map. *)

(** The segment search: the point of the segment and its distance. *)
Lemma segment_search_example :
  closest Flat.leaflet1 None Flat.map
    (SLayer (Polyline 1 [Flat.pt 0 0; Flat.pt 10 0])) (Some (mkLatLng 1 5))
    false
  = Return (Some (mkClosest (mkLatLng 0 5) 1)).
Proof. reflexivity. Qed.

(** Two segments at the same distance: [<=] keeps the later one. *)
Lemma segment_tie_example :
  closest Flat.leaflet1 None Flat.map
    (SLayer (Polyline 1 [Flat.pt 0 0; Flat.pt 10 0; Flat.pt 10 10]))
    (Some (mkLatLng 5 5)) false
  = Return (Some (mkClosest (mkLatLng 5 10) 5)).
Proof. reflexivity. Qed.

(** The vertex search calls [this.distance]: a plain call raises. *)
Lemma vertex_search_example :
  closest Flat.leaflet1 None Flat.map
    (SLayer (Polyline 1 [Flat.pt 0 0; Flat.pt 10 0])) (Some (mkLatLng 1 5))
    true
  = Throw TypeError
  /\ closest Flat.leaflet1 (Some Flat.distance) Flat.map
       (SLayer (Polyline 1 [Flat.pt 0 0; Flat.pt 10 0; Flat.pt 0 0]))
       (Some (mkLatLng 0 1)) true
     = Return (Some (mkClosest (mkLatLng 0 0) 1)).
Proof. split; reflexivity. Qed.

(** A polygon is searched as the polyline that ends where it starts. *)
Lemma polygon_example :
  let square := [Flat.pt 0 0; Flat.pt 10 0; Flat.pt 10 10; Flat.pt 0 10] in
  let q := Some (mkLatLng 5 (-1)) in
  closest Flat.leaflet1 None Flat.map (SLayer (Polygon 1 square)) q false
  = Return (Some (mkClosest (mkLatLng 5 0) 1))
  /\ closest Flat.leaflet1 None Flat.map (SLayer (Polygon 1 square)) q false
     = closest Flat.leaflet1 None Flat.map
         (SLayer (Polyline 1 (square ++ [Flat.pt 0 0]))) q false
  /\ closest Flat.leaflet1 None Flat.map (SLayer (Polyline 1 square)) q false
     <> Return (Some (mkClosest (mkLatLng 5 0) 1)).
Proof. split; [reflexivity | split; [reflexivity | discriminate]]. Qed.

(** The copy of line 128 is searched: an infinite coordinate is [null] in
    it, which the [LatLng] constructor reads as 0. *)
Lemma json_copy_example :
  closest Flat.leaflet1 None Flat.map
    (SLayer (Polyline 1 [Coord (mkLatLng infinity 0); Flat.pt 10 0]))
    (Some (mkLatLng 1 5)) false
  = Return (Some (mkClosest (mkLatLng 0 5) 1)).
Proof. reflexivity. Qed.

(** Nested coordinates: the nearest of the sub-arrays, the first one on a
    tie; a sub-array with one point makes line 146 read [distance] of
    [null]. *)
Lemma nested_example :
  closest Flat.leaflet1 None Flat.map
    (SLayer (Polyline 1 [Array [Flat.pt 0 2; Flat.pt 10 2];
                         Array [Flat.pt 0 0; Flat.pt 10 0]]))
    (Some (mkLatLng 1 5)) false
  = Return (Some (mkClosest (mkLatLng 2 5) 1))
  /\ closest Flat.leaflet1 None Flat.map
       (SLayer (Polyline 1 [Array [Flat.pt 0 0];
                            Array [Flat.pt 1 1; Flat.pt 2 2]]))
       (Some (mkLatLng 1 5)) false
     = Throw TypeError.
Proof. split; reflexivity. Qed.

(** The collection search: the first of two layers at the same distance. *)
Lemma closestLayer_example :
  let lineA := Polyline 1 [Flat.pt 0 2; Flat.pt 10 2] in
  let lineB := Polyline 2 [Flat.pt 0 0; Flat.pt 10 0] in
  closestLayer Flat.leaflet1 None Flat.map [GridLayer 3; lineA; lineB]
    (Some (mkLatLng 1 5))
  = Return (Some (mkSnapResult lineA (Some (mkLatLng 2 5)) 1)).
Proof. reflexivity. Qed.

(** ** Lines 128-141 on the store *)

Lemma slice_then_copy (s : store) (a : nat) (latlngs : list jsval) :
  read s (CRef a) = Return (Array latlngs) ->
  exists arr : list cell,
    slice0 a s = (s ++ [arr], Return (CRef (length s)))
    /\ JSON_stringify (s ++ [arr]) (CRef (length s))
       = Return (Array (List.map json_copy latlngs)).
Proof.
  intros H. unfold read in H. cbn [readValue] in H.
  destruct (nth_error s a) as [arr|] eqn:Ha; [|discriminate].
  destruct (mapM (readValue (length s) s) arr) as [l|e] eqn:Hl;
    [|discriminate].
  injection H as ->.
  exists arr. split; [unfold slice0; rewrite Ha; reflexivity|].
  unfold JSON_stringify, read. cbn [readValue]. rewrite nth_error_middle.
  rewrite (mapM_ext_Return (readValue (length s) s)
             (readValue (length (s ++ [arr])) (s ++ [arr])) arr)
    with (r := latlngs); [reflexivity | | exact Hl].
  intros x y Hx. eapply readValue_mono; [exact Hx|].
  rewrite length_app. lia.
Qed.

(** Line 128 on a polyline: the slice and the arrays of the parsed copy are
    new arrays, and the copy reads as the coordinates JSON writes. *)
Lemma copyLatLngs_polyline (leaflet : Leaflet) (s : store) (a : nat)
    (latlngs : list jsval) :
  read s (CRef a) = Return (Array latlngs) ->
  exists (fresh : store) (c : cell),
    copyLatLngs leaflet false a s = (s ++ fresh, Return c)
    /\ read (s ++ fresh) c = Return (Array (List.map json_copy latlngs)).
Proof.
  intros H. destruct (slice_then_copy s a latlngs H) as [arr [Hs Hj]].
  unfold copyLatLngs. rewrite Hs, Hj. unfold JSON_parse.
  set (s1 := s ++ [arr]).
  set (text := Array (List.map json_copy latlngs)).
  exists ([arr] ++ fst (layout (length s1) text)),
         (snd (layout (length s1) text)).
  split.
  { destruct (layout (length s1) text) as [block c].
    cbn [fst snd]. unfold s1. rewrite <- app_assoc. reflexivity. }
  rewrite app_assoc. fold s1. unfold read.
  pose proof (layout_reads_back text s1 []
                (fuel := S (length (s1 ++ fst (layout (length s1) text)))))
    as Hr.
  rewrite !app_nil_r in Hr. apply Hr.
  pose proof (depth_le_layout text (length s1)).
  rewrite length_app. lia.
Qed.

(** Lines 128-132 on a polygon, on a host without [Util.isArray]: the call
    of [isFlat] raises before anything is pushed on the copy. *)
Lemma copyLatLngs_polygon_raises (leaflet : Leaflet) (s : store) (a : nat)
    (latlngs : list jsval) :
  Util_isArray leaflet = false ->
  read s (CRef a) = Return (Array latlngs) ->
  copyLatLngs leaflet true a s
  = (fst (copyLatLngs leaflet false a s), Throw TypeError).
Proof.
  intros Hhost H. destruct (slice_then_copy s a latlngs H) as [arr [Hs Hj]].
  unfold copyLatLngs. rewrite Hs, Hj. unfold JSON_parse.
  rewrite layout_array.
  destruct (layoutAll layout (length (s ++ [arr]))
              (List.map json_copy latlngs)) as [blocks cells].
  cbn [fst snd addLastSegment_st].
  destruct (nth_error _ _) as [top|]; [|reflexivity].
  unfold isFlat_st. rewrite Hhost. reflexivity.
Qed.

(** C7, where the code departs from it: on a host without [Util.isArray]
    (Leaflet 2), for every polygon handed to [closest], whose coordinates
    the store holds at address [a] and reads as [latlngs], no closing
    segment is appended or searched: the call raises TypeError at line 132,
    where [isFlat] calls [leaflet.Util.isArray], before the first push.  The
    call leaves the store as the copy of line 128 alone leaves it: it only
    adds arrays after those of the caller, which are where they were with
    the same cells, so the coordinates of the polygon read the same after
    the call. *)
Theorem polygon_raises_before_closing :
  forall leaflet : Leaflet,
    Util_isArray leaflet = false ->
    forall (s : store) (a : nat) (latlngs : list jsval),
      read s (CRef a) = Return (Array latlngs) ->
      forall (this : receiver) (map : LMap) (id : nat)
             (q : option LatLng) (vertices : bool),
        exists fresh : store,
          closest_st leaflet this map true a q vertices s
          = (s ++ fresh, Throw TypeError)
          /\ fst (copyLatLngs leaflet false a s) = s ++ fresh
          /\ read (s ++ fresh) (CRef a) = Return (Array latlngs)
          /\ closest leaflet this map (SLayer (Polygon id latlngs)) q
               vertices
             = Throw TypeError.
Proof.
  intros leaflet Hhost s a latlngs H this map id q vertices.
  destruct (copyLatLngs_polyline leaflet s a latlngs H)
    as [fresh [c [Hcopy _]]].
  exists fresh. unfold closest_st.
  rewrite (copyLatLngs_polygon_raises leaflet s a latlngs Hhost H), Hcopy.
  cbn [fst]. split; [reflexivity|]. split; [reflexivity|]. split.
  - unfold read in *. eapply readValue_mono; [exact H|].
    rewrite length_app. lia.
  - apply (closest_line_raises leaflet Hhost). reflexivity.
Qed.

Lemma polygon_raises_before_closing_witness :
  let ring :=
    [CCoord (mkLatLng 0 0); CCoord (mkLatLng 0 10); CCoord (mkLatLng 10 10)]
  in
  let s : store := [ring] in
  exists fresh : store,
    closest_st Flat.leaflet None Flat.map true 0 (Some (mkLatLng 5 (-1)))
      false s
    = (s ++ fresh, Throw TypeError)
    /\ fst (copyLatLngs Flat.leaflet false 0 s) = s ++ fresh
    /\ read (s ++ fresh) (CRef 0)
       = Return (Array [Flat.pt 0 0; Flat.pt 10 0; Flat.pt 10 10])
    /\ closest Flat.leaflet None Flat.map
         (SLayer (Polygon 1 [Flat.pt 0 0; Flat.pt 10 0; Flat.pt 10 10]))
         (Some (mkLatLng 5 (-1))) false
       = Throw TypeError.
Proof.
  intros ring s.
  apply (polygon_raises_before_closing Flat.leaflet eq_refl s 0
           [Flat.pt 0 0; Flat.pt 10 0; Flat.pt 10 10]).
  reflexivity.
Defined.

(** X11: for every polyline handed to [closest], whose coordinates the store
    holds at address [a] and reads as [latlngs], on every host: the call
    only adds arrays after those of the store (the slice and the copy of
    line 128), so the arrays of the caller are where they were with the
    same cells and the coordinates of the polyline read the same after the
    call; the copy that is searched holds the numbers as JSON writes them
    (an infinite coordinate is [null] there); the outcome of the call is that
    of [closest] on the values, which on a host without [Util.isArray] is
    TypeError. *)
Theorem polyline_searched_on_copy :
  forall (leaflet : Leaflet) (s : store) (a : nat) (latlngs : list jsval),
    read s (CRef a) = Return (Array latlngs) ->
    forall (this : receiver) (map : LMap) (id : nat) (q : option LatLng)
           (vertices : bool),
      exists (fresh : store) (c : cell),
        copyLatLngs leaflet false a s = (s ++ fresh, Return c)
        /\ read (s ++ fresh) c
           = Return (Array (List.map json_copy latlngs))
        /\ fst (closest_st leaflet this map false a q vertices s)
           = s ++ fresh
        /\ read (s ++ fresh) (CRef a) = Return (Array latlngs)
        /\ snd (closest_st leaflet this map false a q vertices s)
           = closest leaflet this map (SLayer (Polyline id latlngs)) q
               vertices
        /\ (Util_isArray leaflet = false ->
            snd (closest_st leaflet this map false a q vertices s)
            = Throw TypeError).
Proof.
  intros leaflet s a latlngs H this map id q vertices.
  destruct (copyLatLngs_polyline leaflet s a latlngs H)
    as [fresh [c [Hcopy Hc]]].
  exists fresh, c. unfold closest_st. rewrite Hcopy, Hc. cbn [fst snd bind].
  split; [reflexivity|]. split; [reflexivity|]. split; [reflexivity|].
  split; [|split; [reflexivity|]].
  - unfold read in *. eapply readValue_mono; [exact H|].
    rewrite length_app. lia.
  - intros Hhost. cbn [elements]. unfold closestFlattened.
    rewrite (isFlat_raises leaflet Hhost). reflexivity.
Qed.

Lemma polyline_searched_on_copy_witness :
  let line := [CCoord (mkLatLng 0 0); CCoord (mkLatLng infinity 10)] in
  let s : store := [line] in
  exists (fresh : store) (c : cell),
    copyLatLngs Flat.leaflet false 0 s = (s ++ fresh, Return c)
    /\ read (s ++ fresh) c
       = Return (Array [Plain (Some 0%float) (Some 0%float);
                        Plain None (Some 10%float)])
    /\ fst (closest_st Flat.leaflet None Flat.map false 0
              (Some (mkLatLng 1 5)) false s)
       = s ++ fresh
    /\ read (s ++ fresh) (CRef 0)
       = Return (Array [Coord (mkLatLng 0 0); Coord (mkLatLng infinity 10)])
    /\ snd (closest_st Flat.leaflet None Flat.map false 0
              (Some (mkLatLng 1 5)) false s)
       = Throw TypeError.
Proof.
  intros line s.
  destruct (polyline_searched_on_copy Flat.leaflet s 0
              [Coord (mkLatLng 0 0); Coord (mkLatLng infinity 10)] eq_refl
              None Flat.map 1 (Some (mkLatLng 1 5)) false)
    as [fresh [c (H1 & H2 & H3 & H4 & _ & H6)]].
  exists fresh, c.
  split; [exact H1|]. split; [exact H2|]. split; [exact H3|].
  split; [exact H4 | apply H6; reflexivity].
Defined.

(** ** The snap resolver *)



(** X6: without [withVertices], [closestLayerSnap] returns a result exactly
    when [closestLayer], called without a receiver, returns that result and
    the tolerance is not below its distance; the result is the one of
    [closestLayer], unchanged, whatever the receiver of
    [closestLayerSnap]. *)
Theorem closestLayerSnap_without_vertices :
  forall (leaflet : Leaflet) (this : receiver) (map : LMap)
         (layers : list Layer) (latlng : option LatLng) (tolerance : float)
         (r : SnapResult),
    closestLayerSnap leaflet this map layers latlng tolerance false
    = Return (Some r)
    <-> closestLayer leaflet None map layers latlng = Return (Some r)
        /\ (tolerance <? r_distance r)%float = false.
Proof.
  intros leaflet this map layers latlng tolerance r. unfold closestLayerSnap.
  destruct (closestLayer leaflet None map layers latlng) as [[r0|]|e];
    cbn [bind andb].
  - destruct (tolerance <? r_distance r0)%float eqn:Hd.
    + split; [discriminate|]. intros [H H']. injection H as <-. congruence.
    + split.
      * intros H. injection H as <-. split; [reflexivity | exact Hd].
      * intros [H _]. exact H.
  - split; [discriminate | intros [H _]; discriminate].
  - split; [discriminate | intros [H _]; discriminate].
Qed.

(** X7: for every list of layers, position and tolerance, with or without
    [withVertices], [closestLayerSnap] answers [null] exactly when
    [closestLayer] answers [null] or a result whose distance the tolerance is
    below; a result at the tolerance is not turned into [null]. *)
Theorem closestLayerSnap_null_exactly_on_a_miss :
  forall (leaflet : Leaflet) (this : receiver) (map : LMap)
         (layers : list Layer) (latlng : option LatLng) (tolerance : float)
         (withVertices : bool),
    closestLayerSnap leaflet this map layers latlng tolerance withVertices
    = Return None
    <-> closestLayer leaflet None map layers latlng = Return None
        \/ exists r,
             closestLayer leaflet None map layers latlng = Return (Some r)
             /\ (tolerance <? r_distance r)%float = true.
Proof. intros. apply closestLayerSnap_null_iff. Qed.

(** ** Registering and unregistering *)

Lemma indexOf_appended (x : Layer) (rest layers : list Layer) :
  indexOf layers x = None ->
  indexOf (layers ++ x :: rest) x = Some (length layers).
Proof.
  induction layers as [|l layers IH]; cbn [indexOf app length]; intros H.
  - rewrite Nat.eqb_refl. reflexivity.
  - destruct (stamp l =? stamp x); [discriminate|].
    destruct (indexOf layers x); [discriminate|].
    rewrite (IH eq_refl). reflexivity.
Qed.

Lemma splice1_appended (x : Layer) (rest layers : list Layer) :
  splice1 (layers ++ x :: rest) (length layers) = layers ++ rest.
Proof.
  induction layers as [|l layers IH]; cbn [splice1 app length];
    [reflexivity|].
  rewrite IH. reflexivity.
Qed.

Lemma unregister_appended (xs layers : list Layer) :
  (forall x, In x xs -> indexOf layers x = None) ->
  fold_left unregisterOne xs (layers ++ xs) = layers.
Proof.
  revert layers. induction xs as [|x xs IH]; intros layers H;
    cbn [fold_left].
  - apply app_nil_r.
  - unfold unregisterOne at 2.
    rewrite indexOf_appended by (apply H; left; reflexivity).
    rewrite splice1_appended. apply IH.
    intros y Hy. apply H. right. exact Hy.
Qed.

Lemma unregister_absent (xs layers : list Layer) :
  (forall x, In x xs -> indexOf layers x = None) ->
  fold_left unregisterOne xs layers = layers.
Proof.
  induction xs as [|x xs IH]; intros H; cbn [fold_left]; [reflexivity|].
  unfold unregisterOne at 2. rewrite (H x) by (left; reflexivity).
  apply IH. intros y Hy. apply H. right. exact Hy.
Qed.

(** X12: for every layer, groups of groups included, none of whose leaves
    is registered (no entry of [_layers] has the stamp of a leaf):
    [removeLayer] right after [addLayer] restores [_layers] exactly, in
    content and order, and [removeLayer] alone leaves [_layers] as it is;
    both complete normally, fire nothing, and the only change to the handler
    is that [_previous] is [null]. *)
Theorem addLayer_then_removeLayer_restores_layers :
  forall (layer : Layer) (w : World),
    (forall x : Layer,
        In x (leaves layer) -> indexOf (_layers (handler w)) x = None) ->
    removeLayer layer (fst (addLayer layer w))
    = (withPrevious w None, Return tt)
    /\ removeLayer layer w = (withPrevious w None, Return tt).
Proof.
  intros layer w H. rewrite addLayer_leaves. cbn [fst].
  rewrite !removeLayer_leaves. unfold withPrevious, withLayers.
  cbn [handler _layers _map _previous fired].
  rewrite (unregister_appended _ _ H), (unregister_absent _ _ H).
  split; reflexivity.
Qed.

Lemma addLayer_then_removeLayer_restores_layers_witness :
  let line := Polyline 1 [Flat.pt 0 0; Flat.pt 10 0] in
  let group :=
    LayerGroup 2 [LayerGroup 3 [Marker 4 (mkLatLng 0 0)]; GridLayer 5] in
  let w := fst (addLayer line (initialize Flat.map)) in
  removeLayer group (fst (addLayer group w))
  = (withPrevious w None, Return tt)
  /\ removeLayer group w = (withPrevious w None, Return tt).
Proof.
  intros line group w.
  apply (addLayer_then_removeLayer_restores_layers group w).
  intros x [<-|[<-|[]]]; reflexivity.
Defined.

(** ** Pointer moves and clicks *)

Lemma onMouseMove_returns (leaflet : Leaflet) (e : MouseEvent) (q : LatLng)
    (w : World) (closest : option SnapResult) :
  e_latlng e = Some q ->
  getClosest leaflet (handler w) (Some q) = Return closest ->
  _onMouseMove leaflet e w
  = (mkWorld (mkHandler (_map (handler w)) (_layers (handler w)) closest)
       (fired w ++ moveEvents (_previous (handler w)) closest),
     Return tt).
Proof.
  intros He Hq. unfold _onMouseMove. rewrite He.
  unfold mbind, this_, lift. rewrite Hq. unfold moveEvents.
  destruct closest as [c|]; destruct (_previous (handler w)) as [p|];
    cbn; rewrite <- ?app_assoc, ?app_nil_r; try reflexivity.
  destruct (stamp (r_layer p) =? stamp (r_layer c)); cbn;
    rewrite <- ?app_assoc; reflexivity.
Qed.

Lemma onMouseMove_throws (leaflet : Leaflet) (e : MouseEvent) (q : LatLng)
    (w : World) (ex : exn) :
  e_latlng e = Some q ->
  getClosest leaflet (handler w) (Some q) = Throw ex ->
  _onMouseMove leaflet e w = (w, Throw ex).
Proof.
  intros He Hq. unfold _onMouseMove. rewrite He.
  unfold mbind, this_, lift. rewrite Hq. reflexivity.
Qed.

Lemma onMouseClick_cases (leaflet : Leaflet) (e : MouseEvent) (w : World) :
  _onMouseClick leaflet e w
  = match getClosest leaflet (handler w) (e_latlng e) with
    | Return (Some c) =>
        (mkWorld (handler w)
           (fired w ++ [almost_type (e_type e) (r_layer c) (r_latlng c)]),
         Return tt)
    | Return None => (w, Return tt)
    | Throw ex => (w, Throw ex)
    end.
Proof.
  unfold _onMouseClick, mbind, this_, lift.
  destruct (getClosest leaflet (handler w) (e_latlng e)) as [[c|]|ex];
    reflexivity.
Qed.

Lemma flat_map_leaves_flat (layers : list Layer) :
  Forall (fun l => has_eachLayer l = false) layers ->
  flat_map leaves layers = layers.
Proof.
  induction 1 as [|l rest Hl _ IH]; [reflexivity|].
  cbn [flat_map]. rewrite IH. destruct l; try reflexivity. discriminate.
Qed.

Lemma closestLayerSnap_hit (leaflet : Leaflet) (this : receiver)
    (map : LMap) (layers : list Layer) (latlng : option LatLng)
    (tolerance : float) (r : SnapResult) :
  closestLayerSnap leaflet this map layers latlng tolerance false
  = Return (Some r) ->
  closestLayer leaflet None map layers latlng = Return (Some r)
  /\ (tolerance <? r_distance r)%float = false.
Proof.
  unfold closestLayerSnap.
  destruct (closestLayer leaflet None map layers latlng) as [[r0|]|e];
    cbn [bind andb]; try discriminate.
  destruct (tolerance <? r_distance r0)%float eqn:Hd; [discriminate|].
  intros H. injection H as <-. split; [reflexivity | exact Hd].
Qed.

(** A result of the handler's query is about a registered layer, has a
    position and is within the tolerance of the map. *)
Lemma getClosest_hit (leaflet : Leaflet) (h : AlmostOverHandler)
    (q : option LatLng) (c : SnapResult) :
  Forall (fun l => has_eachLayer l = false) (_layers h) ->
  getClosest leaflet h q = Return (Some c) ->
  In (r_layer c) (_layers h)
  /\ r_latlng c <> None
  /\ (almostDistance (_map h) <? r_distance c)%float = false.
Proof.
  intros Hflat H. unfold getClosest in H.
  apply closestLayerSnap_hit in H. destruct H as [H Hd].
  destruct (closestLayer_sound leaflet (_map h) q None (_layers h) c H)
    as [Hin [Hll _]].
  rewrite (flat_map_leaves_flat _ Hflat) in Hin.
  split; [exact Hin|]. split; assumption.
Qed.

Lemma after_tracks_registered (leaflet : Leaflet) (map : LMap) (c : Call)
    (w : World) :
  tracks_registered map w -> tracks_registered map (after leaflet c w).
Proof.
  intros [Hmap [Hflat Hprev]].
  pose proof (after_keeps_leaves leaflet c w Hflat) as Hflat'.
  split; [|split; [exact Hflat'|]]; clear Hflat'.
  - unfold after. destruct c as [l|l|e|e]; cbn [call].
    + rewrite addLayer_leaves. exact Hmap.
    + rewrite removeLayer_leaves. exact Hmap.
    + destruct (e_latlng e) as [q|] eqn:He.
      * destruct (getClosest leaflet (handler w) (Some q)) as [r|ex]
          eqn:Hq.
        -- rewrite (onMouseMove_returns leaflet e q w r He Hq). exact Hmap.
        -- rewrite (onMouseMove_throws leaflet e q w ex He Hq). exact Hmap.
      * unfold _onMouseMove. rewrite He. exact Hmap.
    + rewrite onMouseClick_cases.
      destruct (getClosest leaflet (handler w) (e_latlng e)) as [[r|]|ex];
        exact Hmap.
  - unfold after. destruct c as [l|l|e|e]; cbn [call].
    + rewrite addLayer_leaves. cbn. intros p Hp.
      destruct (Hprev p Hp) as [Hin Hrest].
      split; [apply in_or_app; left; exact Hin | exact Hrest].
    + rewrite removeLayer_leaves. cbn. discriminate.
    + destruct (e_latlng e) as [q|] eqn:He.
      * destruct (getClosest leaflet (handler w) (Some q)) as [r|ex]
          eqn:Hq.
        -- rewrite (onMouseMove_returns leaflet e q w r He Hq). cbn.
           intros p Hp. subst r. rewrite <- Hmap.
           apply (getClosest_hit leaflet (handler w) (Some q) p Hflat Hq).
        -- rewrite (onMouseMove_throws leaflet e q w ex He Hq). exact Hprev.
      * unfold _onMouseMove. rewrite He. exact Hprev.
    + rewrite onMouseClick_cases.
      destruct (getClosest leaflet (handler w) (e_latlng e)) as [[r|]|ex];
        exact Hprev.
Qed.

Lemma session_snoc (leaflet : Leaflet) (map : LMap) (calls : list Call)
    (c : Call) :
  session leaflet map (calls ++ [c])
  = after leaflet c (session leaflet map calls).
Proof. unfold session. rewrite fold_left_app. reflexivity. Qed.

Lemma session_tracks_registered (leaflet : Leaflet) (map : LMap)
    (calls : list Call) :
  tracks_registered map (session leaflet map calls).
Proof.
  induction calls as [|c calls IH] using rev_ind.
  - split; [reflexivity|]. split; [constructor|]. discriminate.
  - rewrite session_snoc. apply after_tracks_registered, IH.
Qed.

(** ** Sessions on a host without [Util.isArray] *)






Lemma moveEvents_about (layers : list Layer)
    (previous closest : option SnapResult) :
  (forall p, previous = Some p -> In (r_layer p) layers) ->
  (forall c, closest = Some c -> In (r_layer c) layers) ->
  Forall (fun ev => In (event_layer ev) layers)
    (moveEvents previous closest).
Proof.
  intros Hp Hc. unfold moveEvents.
  destruct closest as [c|]; destruct previous as [p|];
    try destruct (stamp (r_layer p) =? stamp (r_layer c));
    repeat constructor; cbn [event_layer];
    solve [apply Hp; reflexivity | apply Hc; reflexivity].
Qed.

(** X14: in every state a session reaches, the events the next call fires,
    whichever call it is, are about layers that are registered when the
    call is made; what was fired before stays as it was.  An [almost:out]
    never names a layer that has been removed, since [removeLayer] drops
    the tracked result. *)
Theorem session_events_name_registered_layers :
  forall (leaflet : Leaflet) (map : LMap) (calls : list Call) (c : Call),
    exists new : list Event,
      fired (after leaflet c (session leaflet map calls))
      = fired (session leaflet map calls) ++ new
      /\ Forall
           (fun ev =>
              In (event_layer ev)
                (_layers (handler (session leaflet map calls))))
           new.
Proof.
  intros leaflet map calls c.
  destruct (session_tracks_registered leaflet map calls)
    as [_ [Hflat Hprev]].
  set (w := session leaflet map calls) in *.
  unfold after. destruct c as [l|l|e|e]; cbn [call].
  - exists []. rewrite addLayer_leaves, app_nil_r.
    split; [reflexivity | constructor].
  - exists []. rewrite removeLayer_leaves, app_nil_r.
    split; [reflexivity | constructor].
  - destruct (e_latlng e) as [q|] eqn:He.
    + destruct (getClosest leaflet (handler w) (Some q)) as [r|ex] eqn:Hq.
      * rewrite (onMouseMove_returns leaflet e q w r He Hq).
        exists (moveEvents (_previous (handler w)) r).
        split; [reflexivity|]. apply moveEvents_about.
        -- intros p Hp. apply (Hprev p Hp).
        -- intros x ->.
           apply (getClosest_hit leaflet (handler w) (Some q) x Hflat Hq).
      * rewrite (onMouseMove_throws leaflet e q w ex He Hq).
        exists []. rewrite app_nil_r. split; [reflexivity | constructor].
    + unfold _onMouseMove. rewrite He. exists []. rewrite app_nil_r.
      split; [reflexivity | constructor].
  - rewrite onMouseClick_cases.
    destruct (getClosest leaflet (handler w) (e_latlng e)) as [[r|]|ex]
      eqn:Hq; try (exists []; rewrite app_nil_r;
                   split; [reflexivity | constructor]).
    exists [almost_type (e_type e) (r_layer r) (r_latlng r)].
    split; [reflexivity|]. repeat constructor. cbn [event_layer].
    apply (getClosest_hit leaflet (handler w) (e_latlng e) r Hflat Hq).
Qed.

Lemma follows_app (a b : list Event) :
  forall tracked,
    follows tracked (a ++ b)
    = follows tracked a && follows (trackedAfter tracked a) b.
Proof.
  induction a as [|ev a IH]; intros tracked; [reflexivity|].
  destruct ev; cbn [app follows trackedAfter]; rewrite IH;
    try reflexivity; apply andb_assoc.
Qed.

Lemma trackedAfter_app (a b : list Event) :
  forall tracked,
    trackedAfter tracked (a ++ b)
    = trackedAfter (trackedAfter tracked a) b.
Proof.
  induction a as [|ev a IH]; intros tracked; [reflexivity|].
  destruct ev; cbn [app trackedAfter]; apply IH.
Qed.

(** What a pointer move fires continues the protocol, from the layer the
    listeners have been told about. *)
Lemma moveEvents_follow (previous closest : option SnapResult)
    (tracked : option nat) :
  (forall p, previous = Some p -> tracked = Some (stamp (r_layer p))) ->
  follows tracked (moveEvents previous closest) = true
  /\ forall c, closest = Some c ->
       trackedAfter tracked (moveEvents previous closest)
       = Some (stamp (r_layer c)).
Proof.
  intros Hp. unfold moveEvents.
  destruct closest as [c|]; destruct previous as [p|].
  - rewrite (Hp p eq_refl).
    destruct (stamp (r_layer p) =? stamp (r_layer c)) eqn:E;
      cbn [follows trackedAfter same_stamp]; rewrite ?E, ?Nat.eqb_refl.
    + split; [reflexivity|]. intros x Hx. injection Hx as <-.
      apply Nat.eqb_eq in E. rewrite E. reflexivity.
    + split; [reflexivity|]. intros x Hx. injection Hx as <-. reflexivity.
  - cbn [follows trackedAfter same_stamp]. rewrite Nat.eqb_refl.
    split; [reflexivity|]. intros x Hx. injection Hx as <-. reflexivity.
  - rewrite (Hp p eq_refl). cbn [follows trackedAfter same_stamp].
    rewrite Nat.eqb_refl. split; [reflexivity | discriminate].
  - split; [reflexivity | discriminate].
Qed.

Lemma after_told (leaflet : Leaflet) (c : Call) (w : World) :
  told w -> told (after leaflet c w).
Proof.
  intros [Hf Hp]. unfold after. destruct c as [l|l|e|e]; cbn [call].
  - rewrite addLayer_leaves. split; assumption.
  - rewrite removeLayer_leaves. split; [exact Hf | discriminate].
  - destruct (e_latlng e) as [q|] eqn:He.
    + destruct (getClosest leaflet (handler w) (Some q)) as [r|ex] eqn:Hq.
      * rewrite (onMouseMove_returns leaflet e q w r He Hq).
        destruct (moveEvents_follow (_previous (handler w)) r
                    (trackedAfter None (fired w)) Hp) as [Hf' Ht'].
        split; cbn [fst fired handler _previous].
        -- rewrite follows_app, Hf, Hf'. reflexivity.
        -- intros p Hr. rewrite trackedAfter_app. apply Ht', Hr.
      * rewrite (onMouseMove_throws leaflet e q w ex He Hq).
        split; assumption.
    + unfold _onMouseMove. rewrite He. split; assumption.
  - rewrite onMouseClick_cases.
    destruct (getClosest leaflet (handler w) (e_latlng e)) as [[r|]|ex];
      try (split; assumption).
    split; cbn [fst fired handler _previous].
    + rewrite follows_app, Hf. reflexivity.
    + intros p Hr. rewrite trackedAfter_app. cbn [trackedAfter].
      apply Hp, Hr.
Qed.

Lemma session_told (leaflet : Leaflet) (map : LMap) (calls : list Call) :
  told (session leaflet map calls).
Proof.
  induction calls as [|c calls IH] using rev_ind.
  - split; [reflexivity | discriminate].
  - rewrite session_snoc. apply after_told, IH.
Qed.

(** X15: the events of every session, on every host, follow the protocol:
    each [almost:out] and each [almost:move] is about the layer (by stamp)
    of the latest [almost:over], with no [almost:out] in between; and while
    a result is tracked, the latest [almost:over] not followed by an
    [almost:out] was about its layer. *)
Theorem session_events_follow_the_protocol :
  forall (leaflet : Leaflet) (map : LMap) (calls : list Call),
    follows None (fired (session leaflet map calls)) = true
    /\ match _previous (handler (session leaflet map calls)) with
       | Some p =>
           trackedAfter None (fired (session leaflet map calls))
           = Some (stamp (r_layer p))
       | None => True
       end.
Proof.
  intros leaflet map calls.
  destruct (session_told leaflet map calls) as [Hf Hp].
  split; [exact Hf|].
  destruct (_previous (handler (session leaflet map calls))) as [p|];
    [apply Hp; reflexivity | exact I].
Qed.

(** X16: with a circle or a marker among the registered layers, every
    pointer move that carries a position and every click raises, whatever
    the position and the other layers: the handler calls the search without
    a receiver, and the search calls [this.distance] for these layers.  No
    event is fired and the handler stays as it was, so this goes on until
    the layer is removed. *)
Theorem registered_circle_or_marker_breaks_the_handler :
  forall (leaflet : Leaflet) (w : World) (l : Layer),
    In l (_layers (handler w)) ->
    needs_receiver l = true ->
    (forall (e : MouseEvent) (q : LatLng),
        e_latlng e = Some q ->
        exists ex : exn, _onMouseMove leaflet e w = (w, Throw ex))
    /\ (forall e : MouseEvent,
           exists ex : exn, _onMouseClick leaflet e w = (w, Throw ex)).
Proof.
  intros leaflet w l Hin Hl.
  assert (H : forall latlng,
             exists ex, getClosest leaflet (handler w) latlng = Throw ex).
  { intros latlng. unfold getClosest, closestLayerSnap.
    apply in_split in Hin. destruct Hin as [pre [post ->]].
    destruct (closestLayer_throws leaflet None (_map (handler w)) latlng
                pre post l
                (closestLayerBody_needs_receiver leaflet (_map (handler w))
                   latlng l Hl)) as [ex Hex].
    exists ex. rewrite Hex. reflexivity. }
  split.
  - intros e q He. destruct (H (Some q)) as [ex Hex]. exists ex.
    apply (onMouseMove_throws leaflet e q w ex He Hex).
  - intros e. destruct (H (e_latlng e)) as [ex Hex]. exists ex.
    rewrite onMouseClick_cases, Hex. reflexivity.
Qed.

Lemma registered_circle_or_marker_breaks_the_handler_witness :
  let line := Polyline 1 [Flat.pt 0 0; Flat.pt 10 0] in
  let marker := Marker 2 (mkLatLng 50 50) in
  let w :=
    session Flat.leaflet Flat.map
      [CallAddLayer line;
       CallMouseMove (mkMouseEvent (Some (mkLatLng 1 5)) mousemove);
       CallAddLayer marker] in
  (exists ex : exn,
      _onMouseMove Flat.leaflet
        (mkMouseEvent (Some (mkLatLng 1 5)) mousemove) w
      = (w, Throw ex))
  /\ (exists ex : exn,
         _onMouseClick Flat.leaflet
           (mkMouseEvent (Some (mkLatLng 1 5)) click) w
         = (w, Throw ex)).
Proof.
  intros line marker w.
  destruct (registered_circle_or_marker_breaks_the_handler Flat.leaflet w
              marker) as [Hmove Hclick].
  - right. left. reflexivity.
  - reflexivity.
  - split.
    + apply (Hmove _ (mkLatLng 1 5)). reflexivity.
    + apply Hclick.
Defined.

Lemma moveEvents_no_click (previous closest : option SnapResult) :
  forallb (fun ev => negb (is_almost_type ev))
    (moveEvents previous closest) = true.
Proof.
  unfold moveEvents.
  destruct closest as [c|]; destruct previous as [p|];
    try destruct (stamp (r_layer p) =? stamp (r_layer c)); reflexivity.
Qed.

(** A call reads the handler only, and appends to the events. *)
Lemma call_local (leaflet : Leaflet) (c : Call) (h : AlmostOverHandler) :
  exists (h' : AlmostOverHandler) (new : list Event) (r : completion unit),
    (forall f : list Event,
        call leaflet c (mkWorld h f) = (mkWorld h' (f ++ new), r))
    /\ if is_click c
       then h' = h /\ forallb is_almost_type new = true
       else forallb (fun ev => negb (is_almost_type ev)) new = true.
Proof.
  destruct c as [l|l|e|e]; cbn [call is_click].
  - exists (mkHandler (_map h) (_layers h ++ leaves l) (_previous h)), [],
      (Return tt).
    split; [|reflexivity]. intros f.
    rewrite addLayer_leaves, app_nil_r. reflexivity.
  - exists (mkHandler (_map h)
              (fold_left unregisterOne (leaves l) (_layers h)) None), [],
      (Return tt).
    split; [|reflexivity]. intros f.
    rewrite removeLayer_leaves, app_nil_r. reflexivity.
  - destruct (e_latlng e) as [q|] eqn:He.
    + destruct (getClosest leaflet h (Some q)) as [r|ex] eqn:Hq.
      * exists (mkHandler (_map h) (_layers h) r),
          (moveEvents (_previous h) r), (Return tt).
        split; [|apply moveEvents_no_click]. intros f.
        rewrite (onMouseMove_returns leaflet e q (mkWorld h f) r He Hq).
        reflexivity.
      * exists h, [], (Throw ex). split; [|reflexivity]. intros f.
        rewrite (onMouseMove_throws leaflet e q (mkWorld h f) ex He Hq).
        rewrite app_nil_r. reflexivity.
    + exists h, [], (Return tt). split; [|reflexivity]. intros f.
      unfold _onMouseMove. rewrite He, app_nil_r. reflexivity.
  - destruct (getClosest leaflet h (e_latlng e)) as [[r|]|ex] eqn:Hq.
    + exists h, [almost_type (e_type e) (r_layer r) (r_latlng r)],
        (Return tt).
      split; [|split; reflexivity]. intros f.
      rewrite onMouseClick_cases. cbn [handler fired]. rewrite Hq.
      reflexivity.
    + exists h, [], (Return tt). split; [|split; reflexivity]. intros f.
      rewrite onMouseClick_cases. cbn [handler fired]. rewrite Hq, app_nil_r.
      reflexivity.
    + exists h, [], (Throw ex). split; [|split; reflexivity]. intros f.
      rewrite onMouseClick_cases. cbn [handler fired]. rewrite Hq, app_nil_r.
      reflexivity.
Qed.

Lemma filter_all (A : Type) (f : A -> bool) (l : list A) :
  forallb f l = true -> filter f l = l.
Proof.
  induction l as [|a l IH]; cbn [forallb filter]; [reflexivity|].
  intros H. apply andb_prop in H. destruct H as [Ha Hl].
  rewrite Ha, (IH Hl). reflexivity.
Qed.

Lemma filter_none (A : Type) (f : A -> bool) (l : list A) :
  forallb f l = true -> filter (fun a => negb (f a)) l = [].
Proof.
  induction l as [|a l IH]; cbn [forallb filter]; [reflexivity|].
  intros H. apply andb_prop in H. destruct H as [Ha Hl].
  rewrite Ha, (IH Hl). reflexivity.
Qed.

(** X17: clicks do not disturb the tracking.  For every session, the
    handler at its end ([_layers] and [_previous]) is the one of the session
    without its clicks, and the events other than those of clicks are the
    events of the session without its clicks, in the same order: a click
    fires events of its own type only, changes nothing in the handler, and
    this also when it raises. *)
Theorem clicks_do_not_disturb_the_tracking :
  forall (leaflet : Leaflet) (map : LMap) (calls : list Call),
    handler (session leaflet map calls)
    = handler (session leaflet map
                 (filter (fun c => negb (is_click c)) calls))
    /\ filter (fun ev => negb (is_almost_type ev))
         (fired (session leaflet map calls))
       = fired (session leaflet map
                  (filter (fun c => negb (is_click c)) calls)).
Proof.
  intros leaflet map calls.
  induction calls as [|c calls [IHh IHf]] using rev_ind.
  - split; reflexivity.
  - rewrite filter_app, session_snoc. unfold after.
    destruct (call_local leaflet c (handler (session leaflet map calls)))
      as [h' [new [r [Hcall Hnew]]]].
    pose proof (Hcall (fired (session leaflet map calls))) as H1.
    replace (mkWorld (handler (session leaflet map calls))
               (fired (session leaflet map calls)))
      with (session leaflet map calls) in H1
      by (destruct (session leaflet map calls); reflexivity).
    rewrite H1. cbn [fst handler fired]. rewrite filter_app.
    cbn [filter]. destruct (is_click c) eqn:Hc; cbn [negb].
    + destruct Hnew as [-> Hnew]. rewrite app_nil_r.
      rewrite (filter_none _ _ _ Hnew), app_nil_r.
      split; assumption.
    + rewrite session_snoc. unfold after.
      set (w2 := session leaflet map
                   (filter (fun c => negb (is_click c)) calls)) in *.
      pose proof (Hcall (fired w2)) as H2. rewrite IHh in H2.
      replace (mkWorld (handler w2) (fired w2)) with w2 in H2
        by (destruct w2; reflexivity).
      rewrite H2. cbn [fst handler fired].
      rewrite (filter_all _ _ _ Hnew), IHf. split; reflexivity.
Qed.

(** ** A handler without layers *)

Lemma unregister_from_nothing (xs : list Layer) :
  fold_left unregisterOne xs [] = [].
Proof. induction xs as [|x xs IH]; [reflexivity | exact IH]. Qed.

(** X20: a handler without layers is silent.  In a session that registers
    no layer, every call completes normally, whatever the positions of the
    pointer events and also for a click without a position; no event is
    fired and the handler stays as [initialize] left it. *)
Theorem session_without_layers_is_silent :
  forall (leaflet : Leaflet) (map : LMap) (calls : list Call),
    forallb (fun c => negb (is_addLayer c)) calls = true ->
    session leaflet map calls = initialize map
    /\ forall c : Call,
         is_addLayer c = false ->
         call leaflet c (initialize map) = (initialize map, Return tt).
Proof.
  intros leaflet map calls Hcalls.
  assert (Hstep : forall c : Call,
             is_addLayer c = false ->
             call leaflet c (initialize map) = (initialize map, Return tt)).
  { intros [l|l|e|e] Hc; try discriminate; cbn [call].
    - rewrite removeLayer_leaves. unfold initialize, withPrevious, withLayers.
      cbn [handler _layers _map fired].
      rewrite unregister_from_nothing. reflexivity.
    - destruct (e_latlng e) as [q|] eqn:He.
      + rewrite (onMouseMove_returns leaflet e q (initialize map) None He);
          reflexivity.
      + unfold _onMouseMove. rewrite He. reflexivity.
    - rewrite onMouseClick_cases. reflexivity. }
  split; [|exact Hstep].
  induction calls as [|c calls IH] using rev_ind; [reflexivity|].
  rewrite forallb_app in Hcalls. apply andb_prop in Hcalls.
  destruct Hcalls as [Hcalls Hc]. cbn [forallb] in Hc.
  rewrite andb_true_r in Hc. apply negb_true_iff in Hc.
  rewrite session_snoc, (IH Hcalls). unfold after.
  rewrite (Hstep c Hc). reflexivity.
Qed.

Lemma session_without_layers_is_silent_witness :
  session Flat.leaflet Flat.map
    [CallMouseMove (mkMouseEvent (Some (mkLatLng 1 5)) mousemove);
     CallMouseClick (mkMouseEvent None click);
     CallRemoveLayer (Marker 1 (mkLatLng 0 0))]
  = initialize Flat.map.
Proof.
  apply (session_without_layers_is_silent Flat.leaflet Flat.map
           [CallMouseMove (mkMouseEvent (Some (mkLatLng 1 5)) mousemove);
            CallMouseClick (mkMouseEvent None click);
            CallRemoveLayer (Marker 1 (mkLatLng 0 0))]).
  reflexivity.
Defined.
